(** * QOTD backend: the submission evaluation engine of [main.py]

    A shallow embedding of the evaluation helpers ([_compare_outputs],
    [evaluate_output_submission], [evaluate_python_submission]), of the
    JSON-backed [DataStore] ([update_stats], [get_stats]) and of the
    [submit] route, followed by the properties of the grading engine.

    Conventions.
    - A Python [str] is a sequence of Unicode code points: [list N].
    - A Python [float] is an IEEE 754 binary64 number: Rocq's primitive
      [float], with the same [+], [-], [*], [/], [==] and [<].
    - Python exceptions are values: a fallible function returns a sum,
      the exception on the left.
    - The clock ([time.time]) and the child interpreter
      ([subprocess.run]) belong to the host; they are operations of a
      [Host] over an explicit world state that every effectful function
      passes along. *)

From Stdlib Require Import Floats String Ascii.
From stdpp Require Import gmap list sorting.

Local Open Scope N_scope.

(** ** Strings *)

Abbreviation str := (list N).

(** A literal of the source text, as code points. *)
Definition lit (s : string) : str :=
  N_of_ascii <$> list_ascii_of_string s.

(** The line feed written "\n" in the source. *)
Definition nl : str := [0x0A].

(** [str.isspace] on one character: the code points CPython's
    [_PyUnicode_IsWhitespace] accepts. *)
Definition is_space (c : N) : bool :=
  (0x09 <=? c) && (c <=? 0x0D) || (0x1C <=? c) && (c <=? 0x20)
  || (c =? 0x85) || (c =? 0xA0) || (c =? 0x1680)
  || (0x2000 <=? c) && (c <=? 0x200A)
  || (c =? 0x2028) || (c =? 0x2029) || (c =? 0x202F) || (c =? 0x205F)
  || (c =? 0x3000).

Fixpoint lstrip (s : str) : str :=
  match s with
  | c :: s' => if is_space c then lstrip s' else s
  | [] => []
  end.

Definition rstrip (s : str) : str := reverse (lstrip (reverse s)).

(** [s.strip()]: the leading whitespace goes first, then the trailing. *)
Definition strip (s : str) : str := rstrip (lstrip s).

(** [s.startswith(p)]. *)
Fixpoint startswith (s p : str) {struct p} : bool :=
  match p, s with
  | [], _ => true
  | c :: p', d :: s' => (c =? d) && startswith s' p'
  | _ :: _, [] => false
  end.

Arguments startswith : simpl nomatch.

(** [x or ""] for an optional string: [None] and the empty string are
    both falsy. *)
Definition or_empty (x : option str) : str :=
  match x with
  | Some (c :: s) => c :: s
  | Some [] | None => []
  end.

(** ** Evaluation helpers: the comparator *)

Definition _compare_outputs (expected : str) (actual : option str) : bool :=
  bool_decide (strip expected = strip (or_empty actual)).

(** The comparator as section 4.1 words it. A string is [blank] when
    it holds whitespace only and [trimmed] when it neither starts nor
    ends with whitespace; [core] is the trim of [s] when it is trimmed
    and [s] is [core] between two blank strings. The two sides compare
    equal when they have the same trim, an absent actual output
    standing for the empty string. *)
Definition blank (s : str) : Prop := Forall (λ c, is_space c = true) s.

Definition trimmed (s : str) : Prop :=
  (∀ c, head s = Some c → is_space c = false) ∧
  (∀ c, last s = Some c → is_space c = false).

Definition trim_of (s core : str) : Prop :=
  trimmed core ∧ ∃ p q, s = p ++ core ++ q ∧ blank p ∧ blank q.

Definition compare_spec (expected : str) (actual : option str) : Prop :=
  ∃ core, trim_of expected core ∧ trim_of (default [] actual) core.

(** ** Models *)

(** The models are pydantic objects: their fields are read as
    attributes. *)
Module TestCase.
Record t := mk { input : option str; expected_output : str }.
End TestCase.

Module Question.
Record t := mk {
  id : str;
  title : str;
  difficulty : str;
  statement : str;
  sample_input : option str;
  sample_output : option str;
  test_cases : list TestCase.t;
  hints : list str;
  expected_solution : option str }.
End Question.

Module SubmissionRequest.
Record t := mk {
  user : str;
  q_id : str;
  language : option str;
  answer : str }.
End SubmissionRequest.

Module TestResult.
Record t := mk {
  input : option str;
  expected_output : str;
  actual_output : option str;
  passed : bool;
  error : option str }.
End TestResult.

Module SubmissionResponse.
Record t := mk {
  correct : bool;
  passed_count : nat;
  total : nat;
  results : list TestResult.t;
  time_ms : float;
  message : option str }.
End SubmissionResponse.

Module Stats.
Record t := mk {
  attempts : Z;
  successes : Z;
  average_time_ms : float }.
End Stats.

Module LeaderboardEntry.
Record t := mk {
  user : str;
  q_id : str;
  correct : bool;
  time_ms : float }.
End LeaderboardEntry.

(** The per-question dictionary kept under [store["stats"]]. *)
Module StatsDict.
Record t := mk {
  attempts : Z;
  successes : Z;
  total_time_ms : float }.
End StatsDict.

(** ** Exceptions of the evaluation *)

(** What the evaluation helpers can raise; [str(e)] is the message. *)
Inductive Exception :=
  | TypeError (msg : str)
  | AttributeError (msg : str).

Definition message (e : Exception) : str :=
  match e with
  | TypeError msg | AttributeError msg => msg
  end.

#[export] Instance exception_ret : MRet (sum Exception) := λ A, inr.
#[export] Instance exception_bind : MBind (sum Exception) :=
  λ A B f m, match m with inl e => inl e | inr a => f a end.

(** Every question the program evaluates comes out of the [Question]
    constructor, so the elements of [q.test_cases] are [TestCase]
    objects. The evaluation loops read them as mappings: [tc[key]]
    raises [TypeError], since a pydantic object has no [__getitem__],
    and [tc.get(key)] raises [AttributeError], since it has no
    attribute [get]. *)
Definition getitem (tc : TestCase.t) (key : str) : Exception + str :=
  inl (TypeError (lit "'TestCase' object is not subscriptable")).

Definition get (tc : TestCase.t) (key : str) : Exception + option str :=
  inl (AttributeError (lit "'TestCase' object has no attribute 'get'")).

(** [TestResult(input=tc.get("input"), expected_output=tc["expected_output"],
    actual_output=..., passed=..., error=...)], the arguments evaluated
    from left to right. *)
Definition make_result (tc : TestCase.t) (actual_output : option str)
    (passed : bool) (error : option str) : Exception + TestResult.t :=
  input ← get tc (lit "input");
  expected_output ← getitem tc (lit "expected_output");
  mret (TestResult.mk input expected_output actual_output passed error).

(** ** The host: clock and child interpreter *)

(** What lines 219 to 221 of [evaluate_python_submission] can do: the
    child completes and both streams decode, [subprocess.run] raises
    [TimeoutExpired], or some other [Exception] [e] is raised, of which
    the handler keeps [str(e)]. *)
Inductive run_outcome :=
  | Completed (out err : str)
  | TimeoutExpired
  | Raised (msg : str).

Class Host (World : Type) := {
  (* [time.time()] *)
  time_time : World → float * World;
  (* [subprocess.run(args, input=..., timeout=...)] with its pipes
     encoded and decoded as UTF-8 *)
  subprocess_run : list str → str → Z → World → run_outcome * World }.

(** Effectful code passes the world along. *)
Definition state (W A : Type) : Type := W → A * W.

#[export] Instance state_ret {W} : MRet (state W) := λ A a w, (a, w).
#[export] Instance state_bind {W} : MBind (state W) :=
  λ A B f m w, let '(a, w') := m w in f a w'.

(** Effectful code that can raise: an exception comes with the world
    it leaves behind. *)
Definition eval (W A : Type) : Type := W → (Exception + A) * W.

#[export] Instance eval_ret {W} : MRet (eval W) := λ A a w, (inr a, w).
#[export] Instance eval_bind {W} : MBind (eval W) :=
  λ A B f m w,
    match m w with
    | (inl e, w') => (inl e, w')
    | (inr a, w') => f a w'
    end.

(** An operation of the host, which does not raise, and a computation
    that leaves the world alone. *)
Definition host {W A} (m : state W A) : eval W A :=
  λ w, let '(a, w') := m w in (inr a, w').

Definition pure {W A} (r : Exception + A) : eval W A := λ w, (r, w).

(** ** Evaluation helpers: literal output *)

(** The [for tc in q.test_cases] loop of [evaluate_output_submission];
    [results] and [passed] are its two variables. *)
Fixpoint output_loop (answer : str) (tcs : list TestCase.t)
    (results : list TestResult.t) (passed : nat)
    : Exception + (list TestResult.t * nat) :=
  match tcs with
  | [] => mret (results, passed)
  | tc :: rest =>
    expected ← getitem tc (lit "expected_output");
    let ok := _compare_outputs expected (Some answer) in
    res ← make_result tc (Some answer) ok None;
    output_loop answer rest (results ++ [res]) (if ok then S passed else passed)
  end.

Definition evaluate_output_submission `{Host World}
    (q : Question.t) (answer : str) : eval World SubmissionResponse.t :=
  start ← host time_time;
  '(results, passed) ← pure (output_loop answer (Question.test_cases q) [] 0%nat);
  end_ ← host time_time;
  mret (SubmissionResponse.mk
          (bool_decide (passed = length (Question.test_cases q)))
          passed (length (Question.test_cases q)) results
          ((end_ - start) * 1000)%float None).

(** ** Evaluation helpers: candidate source *)

Definition wrapper : str :=
  lit "import sys" ++ nl ++
  lit "def _run():" ++ nl ++
  lit "    import sys" ++ nl ++
  lit "    data = sys.stdin.read()" ++ nl ++
  lit "    try:" ++ nl ++
  lit "        # the user code can define solve(input_str) to return answer string" ++ nl ++
  lit "        globals_dict = {}" ++ nl ++
  lit "        locals_dict = {}" ++ nl ++
  lit "        exec(source_code, globals_dict, locals_dict)" ++ nl ++
  lit "        if 'solve' in locals_dict:" ++ nl ++
  lit "            out = locals_dict['solve'](data.strip())" ++ nl ++
  lit "        elif 'solve' in globals_dict:" ++ nl ++
  lit "            out = globals_dict['solve'](data.strip())" ++ nl ++
  lit "        else:" ++ nl ++
  lit "            out = ''" ++ nl ++
  lit "        print(out, end='')" ++ nl ++
  lit "    except Exception as e:" ++ nl ++
  lit "        print('__ERROR__:' + str(e), end='')" ++ nl ++
  lit "if __name__ == '__main__':" ++ nl ++
  lit "    _run()" ++ nl.

(** The text handed to [python -c]:
    [f"source_code = '''{source}'''\n" + wrapper]. *)
Definition assemble (source : str) : str :=
  lit "source_code = '''" ++ source ++ lit "'''" ++ nl ++ wrapper.

(** What reaches the two [except] clauses: [TimeoutExpired], or any
    other [Exception] [e], of which the handler keeps [str(e)]. *)
Inductive caught :=
  | CaughtTimeout
  | CaughtException (e : str).

(** The [try] block of the loop of [evaluate_python_submission], for one
    test case: its result and the new value of [passed], or what it
    raised. The arguments of [subprocess.run] are evaluated before the
    call. *)
Definition try_test_case `{Host World} (source : str) (timeout_sec : Z)
    (tc : TestCase.t) (passed : nat) : state World (caught + (TestResult.t * nat)) :=
  λ w,
    (* assemble full code *)
    let full := assemble source in
    match get tc (lit "input") with
    | inl e => (inl (CaughtException (message e)), w)
    | inr input =>
      let '(o, w) := subprocess_run [lit "python"; lit "-c"; full]
                       (or_empty input) timeout_sec w in
      match o with
      | TimeoutExpired => (inl CaughtTimeout, w)
      | Raised e => (inl (CaughtException e), w)
      | Completed out err =>
        let r : Exception + (TestResult.t * nat) :=
          if startswith out (lit "__ERROR__:") then
            res ← make_result tc None false (Some out);
            mret (res, passed)
          else
            expected ← getitem tc (lit "expected_output");
            let ok := _compare_outputs expected (Some out) in
            res ← make_result tc (Some out) ok
                    (match err with [] => None | _ => Some err end);
            mret (res, if ok then S passed else passed) in
        (match r with
         | inl e => inl (CaughtException (message e))
         | inr x => inr x
         end, w)
      end
    end.

(** The [for tc in q.test_cases] loop of [evaluate_python_submission]:
    the [try] block, then the [except] clause that matches; what a
    clause raises leaves the loop. *)
Fixpoint python_loop `{Host World} (source : str) (timeout_sec : Z)
    (tcs : list TestCase.t) (results : list TestResult.t) (passed : nat)
    : eval World (list TestResult.t * nat) :=
  match tcs with
  | [] => mret (results, passed)
  | tc :: rest =>
    r ← host (try_test_case source timeout_sec tc passed);
    '(res, passed) ← pure
      match r with
      | inr x => mret x
      | inl CaughtTimeout =>
        res ← make_result tc None false (Some (lit "timeout"));
        mret (res, passed)
      | inl (CaughtException e) =>
        res ← make_result tc None false (Some e);
        mret (res, passed)
      end;
    python_loop source timeout_sec rest (results ++ [res]) passed
  end.

Definition evaluate_python_submission `{Host World}
    (q : Question.t) (source : str) (timeout_sec : Z)
    : eval World SubmissionResponse.t :=
  start ← host time_time;
  '(results, passed) ← python_loop source timeout_sec (Question.test_cases q) [] 0%nat;
  end_ ← host time_time;
  mret (SubmissionResponse.mk
          (bool_decide (passed = length (Question.test_cases q)))
          passed (length (Question.test_cases q)) results
          ((end_ - start) * 1000)%float None).

(** ** Simple JSON-backed datastore *)

(** [sorted(l, key=key)]: Python's sort is stable and compares keys with
    [<] only. [insert_by] puts [x], which stood before every element of
    [l], in front of the first element whose key is not below its own. *)
Section sorted.
Context {A K : Type} (lt : K → K → bool) (key : A → K).

Fixpoint insert_by (x : A) (l : list A) : list A :=
  match l with
  | [] => [x]
  | y :: l' => if lt (key y) (key x) then y :: insert_by x l' else x :: l
  end.

Fixpoint sorted (l : list A) : list A :=
  match l with
  | [] => []
  | x :: l' => insert_by x (sorted l')
  end.
End sorted.

(** [a < b] on the tuples [(not x["correct"], x["time_ms"])]: the first
    position where the two differ under [==] decides, by [<]; tuples
    equal at both positions are not below one another. *)
Definition tuple_lt (a b : bool * float) : bool :=
  if negb (Bool.eqb a.1 b.1) then negb a.1 && b.1
  else if negb (a.2 =? b.2)%float then (a.2 <? b.2)%float
  else false.

(** [lambda x: (not x["correct"], x["time_ms"])] *)
Definition leaderboard_key (x : LeaderboardEntry.t) : bool * float :=
  (negb (LeaderboardEntry.correct x), LeaderboardEntry.time_ms x).

(** [self.store]: the keys "stats" and "leaderboard" may be missing from
    a loaded file, [setdefault] and [get] supply the empty container. *)
Record Store := mkStore {
  stats : option (gmap str StatsDict.t);
  leaderboard : option (list LeaderboardEntry.t) }.

Record DataStore := mkDataStore {
  questions : gmap str Question.t;
  store : Store;
  (* the content of [store.json] *)
  store_file : Store }.

Inductive KeyError := mkKeyError (msg : str).

Definition save_store (ds : DataStore) : DataStore :=
  mkDataStore (questions ds) (store ds) (store ds).

Definition get_question (ds : DataStore) (q_id : str) : KeyError + Question.t :=
  match questions ds !! q_id with
  | None => inl (mkKeyError (lit "Question not found"))
  | Some q => inr q
  end.

(** The dictionary [setdefault] stores for a question seen for the first
    time. *)
Definition fresh_stats : StatsDict.t := StatsDict.mk 0 0 0%float.

Definition update_stats (q_id user : str) (correct : bool) (time_ms : float)
    (ds : DataStore) : DataStore :=
  let all := default ∅ (stats (store ds)) in
  let stats := default fresh_stats (all !! q_id) in
  let stats := StatsDict.mk (StatsDict.attempts stats + 1)
                 (StatsDict.successes stats) (StatsDict.total_time_ms stats) in
  let stats := if correct
               then StatsDict.mk (StatsDict.attempts stats)
                      (StatsDict.successes stats + 1) (StatsDict.total_time_ms stats)
               else stats in
  let stats := StatsDict.mk (StatsDict.attempts stats) (StatsDict.successes stats)
                 (StatsDict.total_time_ms stats + time_ms)%float in
  let all := <[q_id := stats]> all in
  (* update leaderboard (simple: append and sort by correct desc then time) *)
  let board := default [] (leaderboard (store ds))
               ++ [LeaderboardEntry.mk user q_id correct time_ms] in
  (* keep top 100 *)
  let board := take 100 (sorted tuple_lt leaderboard_key board) in
  save_store (mkDataStore (questions ds) (mkStore (Some all) (Some board)) (store_file ds)).

(** [x / n] for a float [x] and an int [n] raises [ZeroDivisionError]
    exactly when [n] is zero; otherwise [n] is converted to the nearest
    float, which raises [OverflowError] when that is not finite. *)
Inductive ArithmeticError := ZeroDivisionError | OverflowError.

Definition int_to_float (n : Z) : ArithmeticError + float :=
  match binary_normalize prec emax n 0 false with
  | S754_infinity _ => inl OverflowError
  | f => inr (SF2Prim f)
  end.

Definition truediv (x : float) (n : Z) : ArithmeticError + float :=
  match int_to_float n with
  | inl e => inl e
  | inr d => if bool_decide (n = 0)%Z then inl ZeroDivisionError else inr (x / d)%float
  end.

Definition get_stats (q_id : str) (ds : DataStore) : (ArithmeticError + Stats.t) * DataStore :=
  let all := default ∅ (stats (store ds)) in
  let ds := mkDataStore (questions ds)
              (mkStore (Some all) (leaderboard (store ds))) (store_file ds) in
  let s := default fresh_stats (all !! q_id) in
  let avg := if bool_decide (StatsDict.attempts s ≠ 0)%Z
             then truediv (StatsDict.total_time_ms s) (StatsDict.attempts s)
             else inr 0%float in
  (match avg with
   | inl e => inl e
   | inr avg => inr (Stats.mk (StatsDict.attempts s) (StatsDict.successes s) avg)
   end, ds).

(** ** API routes *)

Inductive HTTPException := mkHTTPException (status_code : Z) (detail : str).

(** The route answers with an [HTTPException] it raises itself, or
    with what the evaluation gives: an exception that leaves the route
    uncaught (the server then answers 500), or the response. *)
Definition submit `{Host World} (sub : SubmissionRequest.t)
    (ds : DataStore) (w : World)
    : (HTTPException + (Exception + SubmissionResponse.t)) * DataStore * World :=
  match get_question ds (SubmissionRequest.q_id sub) with
  | inl _ => (inl (mkHTTPException 404 (lit "Question not found")), ds, w)
  | inr q =>
    let respond (evaluated : (Exception + SubmissionResponse.t) * World) :=
      match evaluated with
      | (inl e, w) => (inr (inl e), ds, w)
      | (inr res, w) =>
        (* update stats and leaderboard *)
        let ds := update_stats (SubmissionRequest.q_id sub) (SubmissionRequest.user sub)
                    (SubmissionResponse.correct res) (SubmissionResponse.time_ms res) ds in
        let res := SubmissionResponse.mk (SubmissionResponse.correct res)
                     (SubmissionResponse.passed_count res) (SubmissionResponse.total res)
                     (SubmissionResponse.results res) (SubmissionResponse.time_ms res)
                     (Some (lit "Submission evaluated")) in
        (inr (inr res), ds, w)
      end in
    if bool_decide (SubmissionRequest.language sub = Some (lit "output")) then
      respond (evaluate_output_submission q (SubmissionRequest.answer sub) w)
    else if bool_decide (SubmissionRequest.language sub = Some (lit "python")) then
      respond (evaluate_python_submission q (SubmissionRequest.answer sub) 2 w)
    else
      (inl (mkHTTPException 400 (lit "Unsupported submission language/type")), ds, w)
  end.

(** The first sample question [_ensure_files] writes to the questions
    file. *)
Definition q1 : Question.t :=
  Question.mk (lit "q1") (lit "Sum of Two Numbers") (lit "Easy")
    (lit "Given two integers separated by space, output their sum.")
    (Some (lit "2 3")) (Some (lit "5"))
    [TestCase.mk (Some (lit "2 3")) (lit "5");
     TestCase.mk (Some (lit "10 5")) (lit "15")]
    [lit "Split the input by space and convert to integers"; lit "Return a+b"]
    (Some (lit "def solve(input_str):" ++ nl ++
           lit "    a,b=map(int,input_str.split())" ++ nl ++
           lit "    return str(a+b)")).

(** ** How the child interpreter reads the assembled text

    The text is handed over as a command-line argument, which can hold
    neither a NUL nor a character outside the Unicode scalar values
    (a surrogate): with one of those no program is read at all.
    [python -c] first turns every carriage return, with the line feed
    after it if there is one, into a line feed; the assembled text ends
    with a line feed, so none is added. It then reads the first line as
    an assignment of a triple-quoted literal to [source_code]. The
    literal ends at the first run of three quotes that no backslash
    precedes; inside it a backslash and the character after it form an
    escape sequence. Octal, hexadecimal and named escapes are left out
    of this reader, which says so when it meets one. *)
Inductive literal :=
  | Bound (value rest : str)
  | Unterminated
  | Unmodelled
  | NotRead.

Definition quote : N := 0x27.
Definition backslash : N := 0x5C.
Definition carriage_return : N := 0x0D.

(** A character a command-line argument can carry. *)
Definition passable (c : N) : bool :=
  negb (c =? 0) && (c <=? 0x10FFFF) && negb ((0xD800 <=? c) && (c <=? 0xDFFF)).

Fixpoint translate_newlines (s : str) : str :=
  match s with
  | [] => []
  | c :: s' =>
    if c =? carriage_return then
      0x0A :: match s' with
              | d :: s'' => if d =? 0x0A then translate_newlines s''
                            else translate_newlines s'
              | [] => []
              end
    else c :: translate_newlines s'
  end.

Definition escape (c : N) : option str :=
  if c =? 0x0A then Some []
  else if (c =? backslash) || (c =? quote) || (c =? 0x22) then Some [c]
  else if c =? 0x61 then Some [0x07]
  else if c =? 0x62 then Some [0x08]
  else if c =? 0x66 then Some [0x0C]
  else if c =? 0x6E then Some [0x0A]
  else if c =? 0x72 then Some [0x0D]
  else if c =? 0x74 then Some [0x09]
  else if c =? 0x76 then Some [0x0B]
  else if (0x30 <=? c) && (c <=? 0x37) || (c =? 0x78) || (c =? 0x4E)
          || (c =? 0x75) || (c =? 0x55) then None
  else Some [backslash; c].

Fixpoint read_triple_quoted (s value : str) : literal :=
  match s with
  | [] => Unterminated
  | c :: s1 =>
    if startswith s [quote; quote; quote] then Bound value (drop 3 s)
    else if c =? backslash then
      match s1 with
      | [] => Unterminated
      | d :: s2 =>
        match escape d with
        | Some e => read_triple_quoted s2 (value ++ e)
        | None => Unmodelled
        end
      end
    else read_triple_quoted s1 (value ++ [c])
  end.

(** The value [source_code] is bound to when the child runs [full], and
    the program text that follows the literal. *)
Definition bound_source (full : str) : literal :=
  if negb (forallb passable full) then NotRead
  else
    let text := translate_newlines full in
    let opening := lit "source_code = '''" in
    if startswith text opening then read_triple_quoted (drop (length opening) text) []
    else Unterminated.

(** ** Hosts used to observe the evaluation *)

(** A call of [subprocess_run]: arguments, standard input, timeout. *)
Definition call : Type := list str * str * Z.

(** Any host, with a journal of the child processes it started. *)
Definition logged `(H : Host World) : Host (World * list call) := {|
  time_time := λ '(w, journal),
    let '(t, w) := time_time w in (t, (w, journal));
  subprocess_run := λ args input timeout '(w, journal),
    let '(o, w) := subprocess_run args input timeout w in
    (o, (w, journal ++ [(args, input, timeout)])) |}.

(** A host that replays a script: the clock readings and the outcomes
    of the child processes, in the order they are asked for. *)
Record script := mkScript {
  clock : list float;
  runs : list run_outcome }.

Definition scripted : Host script := {|
  time_time := λ w,
    match clock w with
    | [] => (0%float, w)
    | t :: c => (t, mkScript c (runs w))
    end;
  subprocess_run := λ _ _ _ w,
    match runs w with
    | [] => (Completed [] [], w)
    | o :: r => (o, mkScript (clock w) r)
    end |}.

(** A run in which the first child would time out and the second
    print the sum. *)
Definition timeout_then_answer : script :=
  mkScript [100%float; 102.5%float] [TimeoutExpired; Completed (lit "15" ++ nl) []].

(** A source text that holds three quotes in a row, twice. *)
Definition quoting_source : str :=
  lit "'''" ++ nl ++ lit "print('injected')" ++ nl ++ lit "'''".


(** ** Aggregate state, as the properties read it *)

(** The dictionary of a question id, if there is one. *)
Definition stats_record (ds : DataStore) (q_id : str) : option StatsDict.t :=
  default ∅ (stats (store ds)) !! q_id.

Definition board (ds : DataStore) : list LeaderboardEntry.t :=
  default [] (leaderboard (store ds)).

(** One call [update_stats(q_id, user, correct, time_ms)]. *)
Record recording := mkRecording {
  rec_q_id : str;
  rec_user : str;
  rec_correct : bool;
  rec_time_ms : float }.

Definition record_all (calls : list recording) (ds : DataStore) : DataStore :=
  foldl (λ ds c, update_stats (rec_q_id c) (rec_user c) (rec_correct c) (rec_time_ms c) ds)
    ds calls.

(** The leaderboard entry a call appends. *)
Definition entry_of (c : recording) : LeaderboardEntry.t :=
  LeaderboardEntry.mk (rec_user c) (rec_q_id c) (rec_correct c) (rec_time_ms c).

(** The calls made for one question id, in the order they were made. *)
Definition calls_for (q_id : str) (calls : list recording) : list recording :=
  filter (λ c, rec_q_id c = q_id) calls.

(** What section 4.4 says the dictionary of a question holds after the
    calls [cs] made for it: their number, the number of correct ones,
    and their times added up from zero in the order of the calls. *)
Definition tally (cs : list recording) : StatsDict.t :=
  StatsDict.mk (Z.of_nat (length cs))
    (Z.of_nat (length (filter (λ c, rec_correct c = true) cs)))
    (foldl (λ total c, total + rec_time_ms c)%float 0%float cs).

(** A store file as [_ensure_files] creates it, with the sample
    question. *)
Definition new_store : DataStore :=
  mkDataStore {[ lit "q1" := q1 ]} (mkStore (Some ∅) (Some [])) (mkStore (Some ∅) (Some [])).

(** Three correct submissions for the sample question, and what the
    sample store holds of them. *)
Definition three_calls : list recording :=
  [mkRecording (lit "q1") (lit "ann") true 30%float;
   mkRecording (lit "q1") (lit "bob") true 10%float;
   mkRecording (lit "q1") (lit "cy") true 20%float].

(** A submission in a language the route does not know. *)
Definition java_submission : SubmissionRequest.t :=
  SubmissionRequest.mk (lit "ann") (lit "q1") (Some (lit "java")) (lit "5").

(** The ranking key of section 4.4, (not-correct ascending, time
    ascending): a correct entry may stand before an incorrect one, and
    two entries of the same correctness stand in ascending time. *)
Definition entry_le (x y : LeaderboardEntry.t) : Prop :=
  (LeaderboardEntry.correct x = true ∧ LeaderboardEntry.correct y = false) ∨
  (LeaderboardEntry.correct x = LeaderboardEntry.correct y ∧
   (LeaderboardEntry.time_ms x <=? LeaderboardEntry.time_ms y)%float = true).

(** Elapsed times are differences of clock readings, never NaN. *)
Definition timed (x : LeaderboardEntry.t) : Prop :=
  is_nan (LeaderboardEntry.time_ms x) = false.

(** The place of a float that is not NaN in the order of [<]: sign
    class, then exponent, then mantissa. *)
Definition rank (f : spec_float) : Z * Z * Z :=
  match f with
  | S754_zero _ => (0, 0, 0)
  | S754_infinity s => (if s then -2 else 2, 0, 0)
  | S754_nan => (3, 0, 0)
  | S754_finite s m e => if s then (-1, - e, - Z.pos m) else (1, e, Z.pos m)
  end%Z.

Definition rank_lt (a b : Z * Z * Z) : Prop :=
  (a.1.1 < b.1.1 ∨ a.1.1 = b.1.1 ∧ (a.1.2 < b.1.2 ∨ a.1.2 = b.1.2 ∧ a.2 < b.2))%Z.

(** ** The questions dictionary and its file *)

(** [self.questions] is a Python dictionary: its keys are unique and
    keep the order in which they were first stored. Assigning to a key
    that is present replaces the value where it stands; a new key goes
    last. *)
Abbreviation qdict := (list (str * Question.t)).

Fixpoint dict_get (k : str) (d : qdict) : option Question.t :=
  match d with
  | [] => None
  | (k', v) :: d' => if decide (k' = k) then Some v else dict_get k d'
  end.

Fixpoint dict_set (k : str) (v : Question.t) (d : qdict) : qdict :=
  match d with
  | [] => [(k, v)]
  | (k', v') :: d' =>
    if decide (k' = k) then (k, v) :: d' else (k', v') :: dict_set k v d'
  end.

(** [list(d.values())] *)
Definition dict_values (d : qdict) : list Question.t := d.*2.

(** The questions side of the [DataStore]: the dictionary and the
    content of the questions file, a JSON list of questions. *)
Record QuestionBook := mkQuestionBook {
  book_questions : qdict;
  questions_file : list Question.t }.

(** [{q["id"]: q for q in json.load(f)}] in [_load]. *)
Definition _load (file : list Question.t) : qdict :=
  foldl (λ d q, dict_set (Question.id q) q d) [] file.

Definition add_question (q : Question.t) (b : QuestionBook) : KeyError + QuestionBook :=
  if bool_decide (is_Some (dict_get (Question.id q) (book_questions b))) then
    inl (mkKeyError (lit "Question already exists"))
  else
    let d := dict_set (Question.id q) q (book_questions b) in
    (* persist to file *)
    inr (mkQuestionBook d (dict_values d)).

(** A dictionary as [_load] and [add_question] leave it: every question
    stands under its own id, and no id stands twice. *)
Definition keyed (d : qdict) : Prop :=
  Forall (λ kv, kv.1 = Question.id kv.2) d ∧ NoDup d.*1.

(** ** The question of the day and the leaderboard reader *)

(** [a < b] on strings: by code points, the shorter of two strings that
    agree that far being the smaller. *)
Fixpoint str_lt (a b : str) : bool :=
  match a, b with
  | _, [] => false
  | [], _ :: _ => true
  | x :: a', y :: b' =>
    if x <? y then true else if y <? x then false else str_lt a' b'
  end.

(** What [get_today] can raise besides what it returns: [%] by a zero
    length, an index outside [qids], a key outside the dictionary. *)
Inductive TodayError := ModuloByZero | IndexError | MissingKey.

(** [whole_days t] stands for [int(t // 86400)], the number of whole
    days in the clock reading; nothing below depends on which number it
    is. *)
Definition get_today `{Host World} (whole_days : float → Z) (ds : DataStore)
    : state World (TodayError + Question.t) :=
  (* Simple deterministic "today" selector: pick by day number *)
  let qids := sorted str_lt id (map_to_list (questions ds)).*1 in
  t ← time_time;
  if bool_decide (length qids = 0%nat) then mret (inl ModuloByZero)
  else
    let idx := (whole_days t `mod` Z.of_nat (length qids))%Z in
    match qids !! Z.to_nat idx with
    | None => mret (inl IndexError)
    | Some k =>
      match questions ds !! k with
      | None => mret (inl MissingKey)
      | Some q => mret (inr q)
      end
    end.

(** [l[:top]]: a negative [top] counts from the end. *)
Definition slice_to {A} (top : Z) (l : list A) : list A :=
  if (0 <=? top)%Z then take (Z.to_nat top) l
  else take (length l - Z.to_nat (- top)) l.

Definition get_leaderboard (top : Z) (ds : DataStore) : list LeaderboardEntry.t :=
  slice_to top (default [] (leaderboard (store ds))).

(** ** More API routes *)

Module Api.

(** [out = q.dict()] with ["expected_solution"] popped unless [reveal]:
    the response model answers an absent key with [None]. *)
Definition conceal (reveal : bool) (q : Question.t) : Question.t :=
  Question.mk (Question.id q) (Question.title q) (Question.difficulty q)
    (Question.statement q) (Question.sample_input q) (Question.sample_output q)
    (Question.test_cases q) (Question.hints q)
    (if reveal then Question.expected_solution q else None).

Definition get_today `{Host World} (whole_days : float → Z) (reveal : bool)
    (ds : DataStore) : state World (TodayError + Question.t) :=
  r ← get_today whole_days ds;
  mret (match r with inl e => inl e | inr q => inr (conceal reveal q) end).

Definition get_question (q_id : str) (reveal : bool) (ds : DataStore)
    : HTTPException + Question.t :=
  match get_question ds q_id with
  | inl _ => inl (mkHTTPException 404 (lit "Question not found"))
  | inr q => inr (conceal reveal q)
  end.

(** [str(e)] of a [KeyError] is the [repr] of its message: the message
    between quotes. *)
Definition add_question (q : Question.t) (b : QuestionBook)
    : (HTTPException + unit) * QuestionBook :=
  match add_question q b with
  | inl (mkKeyError msg) => (inl (mkHTTPException 400 ([quote] ++ msg ++ [quote])), b)
  | inr b' => (inr (), b')
  end.

End Api.

(** A question without test cases, and a second sample question. *)
Definition q0 : Question.t :=
  Question.mk (lit "q0") (lit "Warm-up") (lit "Easy") (lit "Say nothing.")
    None None [] [] None.

Definition q2 : Question.t :=
  Question.mk (lit "q2") (lit "Reverse String") (lit "Easy")
    (lit "Given a string, return the string reversed.")
    (Some (lit "hello")) (Some (lit "olleh"))
    [TestCase.mk (Some (lit "hello")) (lit "olleh");
     TestCase.mk (Some (lit "abc")) (lit "cba")]
    [lit "Use slicing s[::-1]"]
    (Some (lit "def solve(input_str):" ++ nl ++ lit "    return input_str[::-1]")).

(** The counters of every question are consistent: successes lie
    between zero and attempts. *)
Definition counts_consistent (ds : DataStore) : Prop :=
  ∀ q_id s, stats_record ds q_id = Some s →
    (0 ≤ StatsDict.successes s ≤ StatsDict.attempts s)%Z.

(** Submissions to the sample store: for a question that is not there,
    and a right literal answer to one that is. *)
Definition lost_submission : SubmissionRequest.t :=
  SubmissionRequest.mk (lit "ann") (lit "q9") (Some (lit "output")) (lit "5").

Definition output_submission : SubmissionRequest.t :=
  SubmissionRequest.mk (lit "ann") (lit "q1") (Some (lit "output")) (lit "5").

(** The ids [get_today] chooses from, in the order it puts them. *)
Definition today_ids (ds : DataStore) : list str :=
  sorted str_lt id (map_to_list (questions ds)).*1.

(** The questions side of a store created from the sample data. *)
Definition sample_book : QuestionBook :=
  mkQuestionBook [(lit "q1", q1); (lit "q2", q2)] [q1; q2].


(** * Properties *)

(** ** The comparator *)

Section strip_facts.
Implicit Types s p q core : str.

Lemma lstrip_blank_app p s : blank p → lstrip (p ++ s) = lstrip s.
Proof. induction 1 as [|c p Hc _ IH]; simpl; [done | by rewrite Hc]. Qed.

Lemma lstrip_blank p : blank p → lstrip p = [].
Proof. intros Hp. by rewrite <- (app_nil_r p), lstrip_blank_app. Qed.

Lemma lstrip_head s c : head s = Some c → is_space c = false → lstrip s = s.
Proof. destruct s; simpl; [done | intros [= ->] ->; done]. Qed.

Lemma lstrip_split s :
  ∃ p, s = p ++ lstrip s ∧ blank p ∧
       ∀ c, head (lstrip s) = Some c → is_space c = false.
Proof.
  induction s as [|c s (p & Hs & Hp & Hhd)]; simpl.
  - exists []. repeat split; [constructor | done].
  - destruct (is_space c) eqn:Hc.
    + exists (c :: p). split; [by rewrite <- app_comm_cons, <- Hs |].
      split; [by constructor | done].
    + exists []. repeat split; [constructor |]. by intros ? [= <-].
Qed.

Lemma blank_reverse p : blank p → blank (reverse p).
Proof. unfold blank. by rewrite Forall_reverse. Qed.

Lemma rstrip_split s :
  ∃ q, s = rstrip s ++ q ∧ blank q ∧
       ∀ c, last (rstrip s) = Some c → is_space c = false.
Proof.
  destruct (lstrip_split (reverse s)) as (p & Hs & Hp & Hhd).
  exists (reverse p). unfold rstrip. split; [|split].
  - by rewrite <- reverse_app, <- Hs, reverse_involutive.
  - by apply blank_reverse.
  - intros c. rewrite last_reverse. apply Hhd.
Qed.

Lemma strip_trim_of s : trim_of s (strip s).
Proof.
  destruct (lstrip_split s) as (p & Hs & Hp & Hhd).
  destruct (rstrip_split (lstrip s)) as (q & Ht & Hq & Hlast).
  split; [split|].
  - intros c Hc. apply Hhd. rewrite Ht. unfold strip in Hc.
    destruct (rstrip (lstrip s)); [done | exact Hc].
  - exact Hlast.
  - exists p, q. unfold strip. by rewrite <- Ht.
Qed.

Lemma trim_of_unique s core : trim_of s core → core = strip s.
Proof.
  intros [[Hhd Hlast] (p & q & -> & Hp & Hq)]. unfold strip.
  rewrite lstrip_blank_app by done.
  destruct core as [|c core].
  { simpl. rewrite (lstrip_blank q) by done. done. }
  rewrite (lstrip_head ((c :: core) ++ q) c) by (simpl; auto).
  unfold rstrip. rewrite reverse_app, lstrip_blank_app by by apply blank_reverse.
  destruct (last (c :: core)) as [d|] eqn:Hd.
  - rewrite (lstrip_head _ d), reverse_involutive; [done | | by apply Hlast].
    by rewrite head_reverse.
  - by apply last_None in Hd.
Qed.

Lemma compare_outputs_spec expected (actual : option str) :
  _compare_outputs expected actual = true ↔ compare_spec expected actual.
Proof.
  unfold _compare_outputs, compare_spec. rewrite bool_decide_eq_true.
  assert (or_empty actual = default [] actual) as -> by by destruct actual as [[|]|].
  split.
  - intros Heq. exists (strip expected). split; [apply strip_trim_of |].
    rewrite Heq. apply strip_trim_of.
  - intros (core & He & Ha). by rewrite <- (trim_of_unique _ _ He), <- (trim_of_unique _ _ Ha).
Qed.
End strip_facts.

(** C3. [_compare_outputs] is a total function to [bool] that answers
    [true] exactly when both sides have the same trim (the actual output
    counting as the empty string when absent), where the trim of a
    string is what is left between its leading and trailing whitespace.
    Nothing else is normalised: case, inner whitespace, line endings and
    leading zeros stay significant. *)
Theorem compare_outputs_trim_only :
  (∀ expected actual,
     _compare_outputs expected actual = true ↔ compare_spec expected actual) ∧
  (∀ expected, _compare_outputs expected None = _compare_outputs expected (Some [])) ∧
  _compare_outputs (lit "5") (Some (lit "5" ++ nl)) = true ∧
  _compare_outputs (lit "5") (Some (lit " 5 ")) = true ∧
  _compare_outputs (lit "5") (Some (lit "05")) = false ∧
  _compare_outputs (lit "Yes") (Some (lit "yes")) = false ∧
  _compare_outputs (lit "a b") (Some (lit "a  b")) = false ∧
  _compare_outputs (lit "a" ++ nl ++ lit "b") (Some (lit "a" ++ [0x0D] ++ nl ++ lit "b")) = false.
Proof.
  split; [exact compare_outputs_spec |].
  split; [done |].
  repeat split; vm_compute; reflexivity.
Qed.


(** ** The evaluator *)

Section evaluation.
Context `{H : Host World}.
Implicit Types (q : Question.t) (w : World).

Lemma evaluate_output_submission_raises q answer w :
  Question.test_cases q ≠ [] →
  evaluate_output_submission q answer w =
  (inl (TypeError (lit "'TestCase' object is not subscriptable")), (time_time w).2).
Proof.
  intros Hq. unfold evaluate_output_submission, mbind, eval_bind, host, pure.
  destruct (time_time w) as [start w1].
  by destruct (Question.test_cases q).
Qed.

Lemma evaluate_python_submission_raises q source timeout w :
  Question.test_cases q ≠ [] →
  evaluate_python_submission q source timeout w =
  (inl (AttributeError (lit "'TestCase' object has no attribute 'get'")), (time_time w).2).
Proof.
  intros Hq. unfold evaluate_python_submission, mbind, eval_bind, host.
  destruct (time_time w) as [start w1].
  by destruct (Question.test_cases q).
Qed.

Lemma evaluate_output_submission_empty q answer w :
  Question.test_cases q = [] →
  evaluate_output_submission q answer w =
  (inr (SubmissionResponse.mk true 0 0 []
          (((time_time (time_time w).2).1 - (time_time w).1) * 1000)%float None),
   (time_time (time_time w).2).2).
Proof.
  intros Hq.
  unfold evaluate_output_submission, mbind, eval_bind, mret, eval_ret, host, pure.
  rewrite Hq. destruct (time_time w) as [start w1]. simpl.
  by destruct (time_time w1) as [end_ w2].
Qed.

Lemma evaluate_python_submission_empty q source timeout w :
  Question.test_cases q = [] →
  evaluate_python_submission q source timeout w =
  (inr (SubmissionResponse.mk true 0 0 []
          (((time_time (time_time w).2).1 - (time_time w).1) * 1000)%float None),
   (time_time (time_time w).2).2).
Proof.
  intros Hq.
  unfold evaluate_python_submission, mbind, eval_bind, mret, eval_ret, host.
  rewrite Hq. destruct (time_time w) as [start w1]. simpl.
  by destruct (time_time w1) as [end_ w2].
Qed.

End evaluation.

Section no_verdict.
Context `{H : Host World}.
Implicit Types (q : Question.t) (w : World).

(** C1. For a question with a test case neither mode produces a
    verdict: the literal-output loop subscripts the first test case, a
    pydantic object, and raises [TypeError]; the source-code loop calls
    its [get] while it builds the arguments of the child, raises
    [AttributeError], catches it and raises it again in the handler.
    The exception leaves the function after the first clock reading. *)
Theorem evaluation_raises_on_a_test_case q payload timeout w :
  Question.test_cases q ≠ [] →
  evaluate_output_submission q payload w =
    (inl (TypeError (lit "'TestCase' object is not subscriptable")), (time_time w).2) ∧
  evaluate_python_submission q payload timeout w =
    (inl (AttributeError (lit "'TestCase' object has no attribute 'get'")),
     (time_time w).2).
Proof.
  intros Hq. split.
  - by apply evaluate_output_submission_raises.
  - by apply evaluate_python_submission_raises.
Qed.

(** C4. On the sample question with expected outputs "5" and "15", the
    literal answer "5" gets no verdict, so no passed count: the
    evaluation raises [TypeError] at the first test case. *)
Theorem literal_answer_to_sample_raises w :
  (evaluate_output_submission q1 (lit "5") w).1 =
  inl (TypeError (lit "'TestCase' object is not subscriptable")).
Proof. by rewrite evaluate_output_submission_raises. Qed.

(** C5. In source-code mode on the sample question no output is ever
    captured, with or without the sentinel: whatever the source, the
    evaluation raises [AttributeError] before it starts a child, as the
    journal of a logging host shows. *)
Theorem no_output_is_captured source timeout w :
  (evaluate_python_submission (H := logged H) q1 source timeout (w, [])).1 =
    inl (AttributeError (lit "'TestCase' object has no attribute 'get'")) ∧
  (evaluate_python_submission (H := logged H) q1 source timeout (w, [])).2.2 = [].
Proof.
  rewrite (evaluate_python_submission_raises (H := logged H)) by done.
  cbn [time_time logged]. by destruct (time_time w).
Qed.

(** C10. In literal-output mode on the sample question no result is
    emitted, for any answer: the evaluation returns no verdict. *)
Theorem literal_mode_emits_no_result answer w :
  ∀ res, (evaluate_output_submission q1 answer w).1 ≠ inr res.
Proof. intros res. by rewrite evaluate_output_submission_raises. Qed.

End no_verdict.

Lemma evaluation_raises_witness :
  evaluate_output_submission (H := scripted) q1 (lit "5") timeout_then_answer =
    (inl (TypeError (lit "'TestCase' object is not subscriptable")),
     (@time_time _ scripted timeout_then_answer).2) ∧
  evaluate_python_submission (H := scripted) q1 (lit "5") 2 timeout_then_answer =
    (inl (AttributeError (lit "'TestCase' object has no attribute 'get'")),
     (@time_time _ scripted timeout_then_answer).2).
Proof.
  apply (evaluation_raises_on_a_test_case (H := scripted) q1 (lit "5") 2
           timeout_then_answer). discriminate.
Defined.

(** C6. On the sample question, with a host whose first child would
    time out, the evaluation starts no child and emits no result: it
    raises [AttributeError] and leaves both scripted outcomes unused,
    the clock read once. *)
Theorem timed_out_child_is_never_started :
  evaluate_python_submission (H := scripted) q1 (lit "while True: pass") 2
    timeout_then_answer =
  (inl (AttributeError (lit "'TestCase' object has no attribute 'get'")),
   mkScript [102.5%float] [TimeoutExpired; Completed (lit "15" ++ nl) []]).
Proof. by rewrite (evaluate_python_submission_raises (H := scripted)). Qed.

(** ** Delivery of the candidate source *)


(** C2. The assembled text does not deliver the source as opaque data:
    for the source made of three quotes, a line [print('injected')] and
    three quotes, the literal bound to [source_code] ends at the first
    three quotes, so the child binds the empty string and reads the
    line in between as a statement of its own program; no reading of
    the assembled text gives the submitted source back. *)
Theorem quotes_in_source_end_the_literal :
  bound_source (assemble quoting_source) =
    Bound [] (nl ++ lit "print('injected')" ++ nl ++ lit "''''''" ++ nl ++ wrapper) ∧
  ¬ ∀ source, ∃ rest, bound_source (assemble source) = Bound source rest.
Proof.
  assert (bound_source (assemble quoting_source) =
    Bound [] (nl ++ lit "print('injected')" ++ nl ++ lit "''''''" ++ nl ++ wrapper)) as Heq
    by (vm_compute; reflexivity).
  split; [exact Heq |].
  intros Hall. destruct (Hall quoting_source) as [rest Hrest].
  rewrite Heq in Hrest. discriminate Hrest.
Qed.

(** An escape sequence in the source is decoded once too often: the two
    characters backslash and n of [print('a\nb')] arrive as a line
    feed. *)
Example escape_in_source_is_decoded :
  bound_source (assemble (lit "print('a" ++ [backslash] ++ lit "nb')")) =
  Bound (lit "print('a" ++ nl ++ lit "b')") (nl ++ wrapper).
Proof. vm_compute. reflexivity. Qed.

(** ** The order of floats that are not NaN *)

Lemma SFcompare_rank x y :
  x ≠ S754_nan → y ≠ S754_nan →
  match SFcompare x y with
  | Some Lt => rank_lt (rank x) (rank y)
  | Some Eq => rank x = rank y
  | Some Gt => rank_lt (rank y) (rank x)
  | None => False
  end.
Proof.
  intros Hx Hy.
  destruct x as [sx|sx| |sx mx ex], y as [sy|sy| |sy my ey]; try done;
    try (destruct sx); try (destruct sy); unfold rank_lt; simpl; try lia; try done.
  - destruct (Z.compare_spec ex ey) as [->| |]; simpl; try lia.
    change (Pos.compare_cont Eq mx my) with (mx ?= my)%positive.
    destruct (Pos.compare_spec mx my) as [->| |]; simpl; try done; lia.
  - destruct (Z.compare_spec ex ey) as [->| |]; simpl; try lia.
    change (Pos.compare_cont Eq mx my) with (mx ?= my)%positive.
    destruct (Pos.compare_spec mx my) as [->| |]; simpl; try done; lia.
Qed.

Lemma rank_lt_irrefl a : ¬ rank_lt a a.
Proof. unfold rank_lt. lia. Qed.

Lemma rank_lt_asym a b : rank_lt a b → ¬ rank_lt b a.
Proof. unfold rank_lt. lia. Qed.

Lemma rank_lt_trans a b c : rank_lt a b → rank_lt b c → rank_lt a c.
Proof. unfold rank_lt. lia. Qed.

Lemma rank_total a b : rank_lt a b ∨ a = b ∨ rank_lt b a.
Proof.
  destruct a as [[a1 a2] a3], b as [[b1 b2] b3]. unfold rank_lt. simpl.
  destruct (decide (a1 = b1)) as [->|]; [|lia].
  destruct (decide (a2 = b2)) as [->|]; [|lia].
  destruct (decide (a3 = b3)) as [->|]; [|lia]. auto.
Qed.

Lemma is_nan_Prim2SF x : is_nan x = false → Prim2SF x ≠ S754_nan.
Proof.
  unfold is_nan. rewrite FloatAxioms.eqb_spec. intros Hx Hnan. rewrite Hnan in Hx. done.
Qed.

Section float_order.
Implicit Types a b c : float.

Lemma ltb_rank a b :
  is_nan a = false → is_nan b = false →
  (a <? b)%float = true ↔ rank_lt (rank (Prim2SF a)) (rank (Prim2SF b)).
Proof.
  intros Ha%is_nan_Prim2SF Hb%is_nan_Prim2SF. rewrite FloatAxioms.ltb_spec. unfold SFltb.
  pose proof (SFcompare_rank _ _ Ha Hb) as Hc.
  destruct (SFcompare _ _) as [[| |]|]; try done; split; try done.
  - rewrite Hc. by intros ?%rank_lt_irrefl.
  - by intros ?%rank_lt_asym.
Qed.

Lemma eqb_rank a b :
  is_nan a = false → is_nan b = false →
  (a =? b)%float = true ↔ rank (Prim2SF a) = rank (Prim2SF b).
Proof.
  intros Ha%is_nan_Prim2SF Hb%is_nan_Prim2SF. rewrite FloatAxioms.eqb_spec. unfold SFeqb.
  pose proof (SFcompare_rank _ _ Ha Hb) as Hc.
  destruct (SFcompare _ _) as [[| |]|]; try done; split; try done.
  - intros Heq. rewrite Heq in Hc. by apply rank_lt_irrefl in Hc.
  - intros Heq. rewrite Heq in Hc. by apply rank_lt_irrefl in Hc.
Qed.

Lemma leb_rank a b :
  is_nan a = false → is_nan b = false →
  (a <=? b)%float = true ↔
  rank_lt (rank (Prim2SF a)) (rank (Prim2SF b)) ∨ rank (Prim2SF a) = rank (Prim2SF b).
Proof.
  intros Ha%is_nan_Prim2SF Hb%is_nan_Prim2SF. rewrite FloatAxioms.leb_spec. unfold SFleb.
  pose proof (SFcompare_rank _ _ Ha Hb) as Hc.
  destruct (SFcompare _ _) as [[| |]|]; try done; split; auto; try done.
  intros [?%rank_lt_asym | Heq]; [done |].
  rewrite Heq in Hc. by apply rank_lt_irrefl in Hc.
Qed.

End float_order.

(** ** The statistics and the leaderboard *)

Section sorted_facts.
Context {A K : Type} (lt : K → K → bool) (key : A → K).
Context (le : A → A → Prop) (P : A → Prop).
Hypothesis lt_le : ∀ x y, P x → P y → lt (key x) (key y) = true → le x y.
Hypothesis nlt_le : ∀ x y, P x → P y → lt (key x) (key y) = false → le y x.
Hypothesis le_trans : ∀ x y z, P x → P y → P z → le x y → le y z → le x z.

Lemma insert_by_perm x l : insert_by lt key x l ≡ₚ x :: l.
Proof.
  induction l as [|y l IH]; simpl; [done |].
  destruct (lt (key y) (key x)); [|done].
  by rewrite IH, Permutation_swap.
Qed.

Lemma sorted_perm l : sorted lt key l ≡ₚ l.
Proof.
  induction l as [|x l IH]; simpl; [done |]. by rewrite insert_by_perm, IH.
Qed.

Lemma insert_by_sorted x l :
  P x → Forall P l → StronglySorted le l → StronglySorted le (insert_by lt key x l).
Proof.
  intros Hx Hl Hs. induction l as [|y l IH]; simpl.
  - repeat constructor.
  - apply Forall_cons in Hl as [Hy Hl]. apply StronglySorted_cons in Hs as [Hyl Hs].
    destruct (lt (key y) (key x)) eqn:Hlt.
    + apply StronglySorted_cons. split; [|by apply IH].
      rewrite insert_by_perm. constructor; [by apply lt_le | done].
    + apply StronglySorted_cons. split; [|by apply StronglySorted_cons].
      assert (le x y) as Hxy by by apply nlt_le.
      constructor; [done |].
      apply Forall_forall. intros z Hz.
      rewrite Forall_forall in Hyl, Hl. apply (le_trans x y z); auto.
Qed.

Lemma sorted_sorted l : Forall P l → StronglySorted le (sorted lt key l).
Proof.
  induction 1 as [|x l Hx Hl IH]; simpl; [constructor |].
  apply insert_by_sorted; [done | by rewrite sorted_perm | done].
Qed.

End sorted_facts.

Lemma StronglySorted_take {A} (R : A → A → Prop) n (l : list A) :
  StronglySorted R l → StronglySorted R (take n l).
Proof. rewrite <- (take_drop n l) at 1. apply StronglySorted_app_1_l. Qed.

Section entry_order.
Implicit Types x y z : LeaderboardEntry.t.

Lemma tuple_lt_entry_le x y :
  timed x → timed y →
  tuple_lt (leaderboard_key x) (leaderboard_key y) = true → entry_le x y.
Proof.
  unfold timed, tuple_lt, leaderboard_key, entry_le. intros Hx Hy.
  pose proof (ltb_rank _ _ Hx Hy) as Hlt. pose proof (leb_rank _ _ Hx Hy) as Hle.
  destruct (LeaderboardEntry.correct x), (LeaderboardEntry.correct y); simpl; auto;
    try done.
  all: destruct (_ =? _)%float; simpl; [done |]; intros Ht; right; split; [done |];
    apply Hle; left; by apply Hlt.
Qed.

Lemma tuple_nlt_entry_le x y :
  timed x → timed y →
  tuple_lt (leaderboard_key x) (leaderboard_key y) = false → entry_le y x.
Proof.
  unfold timed, tuple_lt, leaderboard_key, entry_le. intros Hx Hy.
  pose proof (ltb_rank _ _ Hx Hy) as Hlt. pose proof (eqb_rank _ _ Hx Hy) as Heq.
  pose proof (leb_rank _ _ Hy Hx) as Hle.
  destruct (rank_total (rank (Prim2SF (LeaderboardEntry.time_ms x)))
              (rank (Prim2SF (LeaderboardEntry.time_ms y)))) as [Hr|[Hr|Hr]].
  all: destruct (LeaderboardEntry.correct x), (LeaderboardEntry.correct y); simpl; auto;
    try done.
  all: try (apply Hlt in Hr as Hr'; rewrite Hr'; destruct (_ =? _)%float; simpl;
            [|done]; intros _; right; split; [done |]; apply Hle; right;
            symmetry; by apply Heq).
  all: intros _; right; split; [done |]; apply Hle; auto.
Qed.

Lemma entry_le_trans x y z :
  timed x → timed y → timed z → entry_le x y → entry_le y z → entry_le x z.
Proof.
  unfold timed, entry_le. intros Hx Hy Hz.
  pose proof (leb_rank _ _ Hx Hy) as Hxy. pose proof (leb_rank _ _ Hy Hz) as Hyz.
  pose proof (leb_rank _ _ Hx Hz) as Hxz.
  intros [[? ?]|[Hc1 H1]] [[? ?]|[Hc2 H2]]; try (left; split; congruence).
  right. split; [congruence |]. apply Hxz.
  apply Hxy in H1 as [H1|H1]; apply Hyz in H2 as [H2|H2].
  - left. by eapply rank_lt_trans.
  - left. by rewrite <- H2.
  - left. by rewrite H1.
  - right. congruence.
Qed.

End entry_order.

Section aggregate.
Implicit Types (ds : DataStore) (q_id user : str).

Lemma board_update_stats q_id user correct time_ms ds :
  board (update_stats q_id user correct time_ms ds) =
  take 100 (sorted tuple_lt leaderboard_key
              (board ds ++ [LeaderboardEntry.mk user q_id correct time_ms])).
Proof. reflexivity. Qed.

Lemma stats_record_update_stats q_id user correct time_ms ds q' :
  stats_record (update_stats q_id user correct time_ms ds) q' =
  if decide (q_id = q') then
    Some (StatsDict.mk
            (StatsDict.attempts (default fresh_stats (stats_record ds q_id)) + 1)
            (StatsDict.successes (default fresh_stats (stats_record ds q_id))
             + (if correct then 1 else 0))
            (StatsDict.total_time_ms (default fresh_stats (stats_record ds q_id))
             + time_ms)%float)
  else stats_record ds q'.
Proof.
  unfold stats_record, update_stats. simpl. rewrite lookup_insert.
  case_decide; [|done]. destruct correct; simpl; [done |].
  by rewrite Z.add_0_r.
Qed.

Lemma record_all_snoc calls c ds :
  record_all (calls ++ [c]) ds =
  update_stats (rec_q_id c) (rec_user c) (rec_correct c) (rec_time_ms c)
    (record_all calls ds).
Proof. unfold record_all. by rewrite foldl_app. Qed.

Lemma update_stats_timed q_id user correct time_ms ds :
  Forall timed (board ds) → is_nan time_ms = false →
  Forall timed (board (update_stats q_id user correct time_ms ds)).
Proof.
  intros Hb Ht. rewrite board_update_stats. apply Forall_take.
  rewrite sorted_perm. apply Forall_app. split; [done |]. by constructor.
Qed.

Lemma record_all_timed calls ds :
  Forall timed (board ds) →
  Forall (λ c, is_nan (rec_time_ms c) = false) calls →
  Forall timed (board (record_all calls ds)).
Proof.
  intros Hb. induction calls as [|c calls IH] using rev_ind; intros Hc; [done |].
  apply Forall_app in Hc as [Hcalls Hc]. apply Forall_inv in Hc.
  rewrite record_all_snoc. apply update_stats_timed; auto.
Qed.

Lemma record_all_stats q_id calls ds :
  stats_record ds q_id = None →
  stats_record (record_all calls ds) q_id =
  if decide (calls_for q_id calls = []) then None
  else Some (tally (calls_for q_id calls)).
Proof.
  intros Hnone. induction calls as [|c calls IH] using rev_ind; [done |].
  rewrite record_all_snoc, stats_record_update_stats.
  unfold calls_for in *. rewrite filter_app, filter_cons, filter_nil.
  destruct (decide (rec_q_id c = q_id)) as [Heq|Hne].
  - rewrite Heq, IH.
    rewrite (decide_False (P := _ ++ [c] = [])) by by destruct (filter _ calls).
    assert (default fresh_stats
              (if decide (filter (λ c, rec_q_id c = q_id) calls = []) then None
               else Some (tally (filter (λ c, rec_q_id c = q_id) calls)))
            = tally (filter (λ c, rec_q_id c = q_id) calls)) as ->.
    { case_decide as Hnil; [by rewrite Hnil | done]. }
    f_equal. unfold tally.
    rewrite length_app, filter_app, length_app, foldl_app. simpl.
    rewrite filter_cons, filter_nil. f_equal.
    + lia.
    + destruct (rec_correct c); simpl; lia.
  - by rewrite IH, app_nil_r.
Qed.

End aggregate.

Lemma StronglySorted_lookup {A} (R : A → A → Prop) (l : list A) i j x y :
  StronglySorted R l → (i < j)%nat → l !! i = Some x → l !! j = Some y → R x y.
Proof.
  intros Hs. revert i j. induction Hs as [|a l Hs IH Ha]; intros i j Hij Hx Hy; [done |].
  destruct j as [|j]; [lia |]. destruct i as [|i]; simpl in *.
  - injection Hx as <-. rewrite Forall_forall in Ha. apply Ha.
    by eapply list_elem_of_lookup_2.
  - apply (IH i j); [lia | done | done].
Qed.

Lemma int_to_float_error n e : int_to_float n = inl e → e = OverflowError.
Proof. unfold int_to_float. destruct (binary_normalize _ _ _ _ _); congruence. Qed.

(** C7. A call of [update_stats] leaves for its question id the
    dictionary it found (the zeroed one when there was none) with
    attempts one higher, successes one higher exactly when the verdict
    is correct, and the elapsed time added to the total; other question
    ids keep theirs. After any calls from a store without the question
    id, its dictionary counts the calls made for it, the correct ones
    among them, and their times added in order. [get_stats] never
    divides by zero: with no attempts the average is 0, otherwise it is
    the total divided by the attempts. Three correct calls for "q1" of
    30, 10 and 20 ms read back as 3 attempts, 3 successes and an average
    of 20 ms. *)
Theorem stats_count_every_call :
  fresh_stats = StatsDict.mk 0 0 0%float ∧
  (∀ q_id user correct time_ms ds,
     stats_record (update_stats q_id user correct time_ms ds) q_id =
     Some (StatsDict.mk
             (StatsDict.attempts (default fresh_stats (stats_record ds q_id)) + 1)
             (StatsDict.successes (default fresh_stats (stats_record ds q_id))
              + (if correct then 1 else 0))
             (StatsDict.total_time_ms (default fresh_stats (stats_record ds q_id))
              + time_ms)%float)) ∧
  (∀ q_id user correct time_ms ds q',
     q_id ≠ q' →
     stats_record (update_stats q_id user correct time_ms ds) q' = stats_record ds q') ∧
  (∀ q_id calls ds,
     stats_record ds q_id = None → calls_for q_id calls ≠ [] →
     stats_record (record_all calls ds) q_id = Some (tally (calls_for q_id calls))) ∧
  (∀ q_id ds, (get_stats q_id ds).1 ≠ inl ZeroDivisionError) ∧
  (∀ q_id ds,
     StatsDict.attempts (default fresh_stats (stats_record ds q_id)) = 0%Z →
     (get_stats q_id ds).1 =
     inr (Stats.mk 0 (StatsDict.successes (default fresh_stats (stats_record ds q_id)))
            0%float)) ∧
  (∀ q_id ds d,
     StatsDict.attempts (default fresh_stats (stats_record ds q_id)) ≠ 0%Z →
     int_to_float (StatsDict.attempts (default fresh_stats (stats_record ds q_id)))
       = inr d →
     (get_stats q_id ds).1 =
     inr (Stats.mk (StatsDict.attempts (default fresh_stats (stats_record ds q_id)))
            (StatsDict.successes (default fresh_stats (stats_record ds q_id)))
            (StatsDict.total_time_ms (default fresh_stats (stats_record ds q_id)) / d)%float)) ∧
  (get_stats (lit "q1") (record_all three_calls new_store)).1
    = inr (Stats.mk 3 3 20%float).
Proof.
  split; [done |]. split.
  { intros. rewrite stats_record_update_stats. by rewrite decide_True. }
  split.
  { intros. rewrite stats_record_update_stats. by rewrite decide_False. }
  split.
  { intros q_id calls ds Hnone Hcalls. rewrite record_all_stats by done.
    by rewrite decide_False. }
  split.
  { intros q_id ds. unfold get_stats, truediv. simpl.
    destruct (bool_decide _) eqn:Hz; [|done].
    apply bool_decide_eq_true in Hz.
    destruct (int_to_float _) as [e|d] eqn:Hd.
    - apply int_to_float_error in Hd as ->. done.
    - by rewrite bool_decide_eq_false_2. }
  split.
  { intros q_id ds Hz. unfold get_stats. simpl. fold (stats_record ds q_id).
    rewrite Hz. done. }
  split.
  { intros q_id ds d Hz Hd. unfold get_stats, truediv. simpl. fold (stats_record ds q_id).
    rewrite bool_decide_eq_true_2 by done. rewrite Hd.
    by rewrite bool_decide_eq_false_2. }
  vm_compute. reflexivity.
Qed.

(** C8. Whatever calls came before, as long as no recorded time is NaN,
    after a call of [update_stats] the leaderboard has at most 100
    entries and is sorted by (not-correct ascending, time ascending):
    of two entries the earlier one is never incorrect before a correct
    one, and entries of equal correctness stand in ascending time. It
    is the first 100 entries of a sorted arrangement of the previous
    leaderboard with the new entry appended. *)
Theorem leaderboard_sorted_and_bounded ds calls c :
  Forall timed (board ds) →
  Forall (λ c, is_nan (rec_time_ms c) = false) (calls ++ [c]) →
  (length (board (record_all (calls ++ [c]) ds)) ≤ 100)%nat ∧
  StronglySorted entry_le (board (record_all (calls ++ [c]) ds)) ∧
  (∀ i j x y,
     (i < j)%nat →
     board (record_all (calls ++ [c]) ds) !! i = Some x →
     board (record_all (calls ++ [c]) ds) !! j = Some y →
     (LeaderboardEntry.correct x = false → LeaderboardEntry.correct y = false) ∧
     (LeaderboardEntry.correct x = LeaderboardEntry.correct y →
      (LeaderboardEntry.time_ms x <=? LeaderboardEntry.time_ms y)%float = true)) ∧
  ∃ l, l ≡ₚ board (record_all calls ds) ++ [entry_of c] ∧
       StronglySorted entry_le l ∧
       board (record_all (calls ++ [c]) ds) = take 100 l.
Proof.
  intros Hb Hc. apply Forall_app in Hc as [Hcalls Hc]. apply Forall_inv in Hc.
  pose proof (record_all_timed calls ds Hb Hcalls) as Hprev.
  rewrite record_all_snoc, board_update_stats. fold (entry_of c).
  assert (StronglySorted entry_le
            (sorted tuple_lt leaderboard_key (board (record_all calls ds) ++ [entry_of c])))
    as Hsorted.
  { apply (sorted_sorted _ _ _ timed).
    - apply tuple_lt_entry_le.
    - apply tuple_nlt_entry_le.
    - apply entry_le_trans.
    - apply Forall_app. split; [done | by constructor]. }
  split; [rewrite length_take; lia |].
  split; [by apply StronglySorted_take |].
  split.
  - intros i j x y Hij Hx Hy.
    pose proof (StronglySorted_lookup _ _ _ _ _ _
                  (StronglySorted_take _ 100 _ Hsorted) Hij Hx Hy) as [[Hcx Hcy]|[Hcxy Ht]].
    + split; [congruence |]. congruence.
    + split; [congruence | done].
  - exists (sorted tuple_lt leaderboard_key (board (record_all calls ds) ++ [entry_of c])).
    split; [apply sorted_perm |]. split; [exact Hsorted | done].
Qed.

Lemma leaderboard_witness :
  StronglySorted entry_le
    (board (record_all
              ([mkRecording (lit "q1") (lit "ann") false 5%float;
                mkRecording (lit "q1") (lit "bob") true 30%float]
               ++ [mkRecording (lit "q1") (lit "cy") true 20%float])
              new_store)).
Proof.
  apply (leaderboard_sorted_and_bounded new_store
           [mkRecording (lit "q1") (lit "ann") false 5%float;
            mkRecording (lit "q1") (lit "bob") true 30%float]
           (mkRecording (lit "q1") (lit "cy") true 20%float)).
  - constructor.
  - repeat constructor.
Defined.

(** A slow correct entry ranks above a fast incorrect one, and the
    faster of two correct entries first. *)
Example leaderboard_ranks_correct_first :
  board (record_all
           [mkRecording (lit "q1") (lit "ann") false 5%float;
            mkRecording (lit "q1") (lit "bob") true 30%float;
            mkRecording (lit "q1") (lit "cy") true 20%float] new_store) =
  [LeaderboardEntry.mk (lit "cy") (lit "q1") true 20%float;
   LeaderboardEntry.mk (lit "bob") (lit "q1") true 30%float;
   LeaderboardEntry.mk (lit "ann") (lit "q1") false 5%float].
Proof. vm_compute. reflexivity. Qed.

(** The 101st entry pushes the last one out. *)
Example leaderboard_keeps_100 :
  length (board (record_all
                   (replicate 101 (mkRecording (lit "q1") (lit "ann") true 1%float))
                   new_store)) = 100%nat.
Proof. vm_compute. reflexivity. Qed.

(** ** The submit route *)

(** C9. For a question id that exists, a submission whose language is
    neither "output" nor "python" is answered with the HTTP error 400,
    "Unsupported submission language/type"; the store, its file and the
    world are what they were: no statistics, no leaderboard entry, no
    clock reading and no child process. *)
Theorem unsupported_language_is_rejected `{H : Host World}
    (sub : SubmissionRequest.t) (ds : DataStore) (w : World) (q : Question.t) :
  questions ds !! SubmissionRequest.q_id sub = Some q →
  SubmissionRequest.language sub ≠ Some (lit "output") →
  SubmissionRequest.language sub ≠ Some (lit "python") →
  submit sub ds w =
  (inl (mkHTTPException 400 (lit "Unsupported submission language/type")), ds, w).
Proof.
  intros Hq Hout Hpy. unfold submit, get_question. rewrite Hq.
  by rewrite !bool_decide_eq_false_2.
Qed.

Lemma unsupported_language_witness :
  submit (H := logged scripted) java_submission new_store (timeout_then_answer, []) =
  (inl (mkHTTPException 400 (lit "Unsupported submission language/type")),
   new_store, (timeout_then_answer, [])).
Proof.
  apply (unsupported_language_is_rejected (H := logged scripted) java_submission new_store
           (timeout_then_answer, []) q1); [reflexivity | discriminate | discriminate].
Defined.

(** * Further properties *)

(** ** Verdicts *)

Section more_verdicts.
Context `{H : Host World}.
Implicit Types (q : Question.t) (w : World).

(** X3. A question without test cases is answered correctly by any
    submission in either mode, with no result, and no child is started
    for it. *)
Theorem no_test_case_accepts_everything q payload timeout w :
  Question.test_cases q = [] →
  ∃ res res',
    (evaluate_output_submission q payload w).1 = inr res ∧
    SubmissionResponse.correct res = true ∧
    SubmissionResponse.results res = [] ∧
    (evaluate_python_submission q payload timeout w).1 = inr res' ∧
    SubmissionResponse.correct res' = true ∧
    SubmissionResponse.results res' = [] ∧
    (evaluate_python_submission (H := logged H) q payload timeout (w, [])).2.2 = [].
Proof.
  intros Hq.
  rewrite (evaluate_output_submission_empty q payload w Hq),
    (evaluate_python_submission_empty q payload timeout w Hq),
    (evaluate_python_submission_empty (H := logged H) q payload timeout (w, []) Hq).
  eexists _, _. repeat split. cbn [time_time logged].
  destruct (time_time w) as [start w1]. cbn [snd]. by destruct (time_time w1).
Qed.

(** X4. Literal-output evaluation starts no child process: the journal
    of a logging host is after it what it was before. *)
Theorem literal_evaluation_runs_nothing q answer w journal :
  (evaluate_output_submission (H := logged H) q answer (w, journal)).2.2 = journal.
Proof.
  destruct (Question.test_cases q) as [|tc tcs] eqn:Hq.
  - rewrite (evaluate_output_submission_empty (H := logged H) q answer (w, journal) Hq).
    cbn [time_time logged].
    destruct (time_time w) as [start w1]. cbn [snd]. by destruct (time_time w1).
  - rewrite (evaluate_output_submission_raises (H := logged H) q answer (w, journal))
      by by rewrite Hq.
    cbn [time_time logged]. by destruct (time_time w).
Qed.

End more_verdicts.

Lemma no_test_case_witness :
  ∃ res res',
    (evaluate_output_submission (H := scripted) q0 (lit "anything") timeout_then_answer).1
      = inr res ∧
    SubmissionResponse.correct res = true ∧
    SubmissionResponse.results res = [] ∧
    (evaluate_python_submission (H := scripted) q0 (lit "anything") 2
       timeout_then_answer).1 = inr res' ∧
    SubmissionResponse.correct res' = true ∧
    SubmissionResponse.results res' = [] ∧
    (evaluate_python_submission (H := logged scripted) q0 (lit "anything") 2
       (timeout_then_answer, [])).2.2 = [].
Proof.
  apply (no_test_case_accepts_everything (H := scripted) q0 (lit "anything") 2
           timeout_then_answer). reflexivity.
Defined.

(** ** More on the comparator *)

Lemma strip_padded (p s q : str) : blank p → blank q → strip (p ++ s ++ q) = strip s.
Proof.
  intros Hp Hq. symmetry. apply trim_of_unique.
  destruct (strip_trim_of s) as [Ht (p' & q' & Hs & Hp' & Hq')].
  split; [done |]. exists (p ++ p'), (q' ++ q).
  split; [|split; by apply Forall_app].
  rewrite Hs at 1. by rewrite <- !app_assoc.
Qed.

Lemma strip_or_empty (s : str) : strip (or_empty (Some s)) = strip s.
Proof. by destruct s. Qed.

(** X5. The comparator is an equivalence on strings (every string
    matches itself, the order of the two sides does not matter, and two
    strings that match a third match each other), and whitespace put
    before or after either side does not change its answer. *)
Theorem comparator_is_an_equivalence :
  (∀ s, _compare_outputs s (Some s) = true) ∧
  (∀ a b, _compare_outputs a (Some b) = _compare_outputs b (Some a)) ∧
  (∀ a b c, _compare_outputs a (Some b) = true → _compare_outputs b (Some c) = true →
            _compare_outputs a (Some c) = true) ∧
  (∀ p q a b, blank p → blank q →
     _compare_outputs (p ++ a ++ q) (Some b) = _compare_outputs a (Some b) ∧
     _compare_outputs b (Some (p ++ a ++ q)) = _compare_outputs b (Some a)).
Proof.
  unfold _compare_outputs. split; [|split; [|split]].
  - intros s. by rewrite strip_or_empty, bool_decide_eq_true.
  - intros a b. rewrite !strip_or_empty. apply bool_decide_ext. naive_solver.
  - intros a b c. rewrite !strip_or_empty, !bool_decide_eq_true. congruence.
  - intros p q a b Hp Hq. by rewrite !strip_or_empty, !strip_padded.
Qed.

(** ** Submissions and the aggregate state *)

(** X7. A submission for a question id that is not in the store is
    answered with the HTTP error 404, "Question not found", before
    anything is evaluated: the store, its file and the world are what
    they were. *)
Theorem unknown_question_is_not_found `{H : Host World}
    (sub : SubmissionRequest.t) (ds : DataStore) (w : World) :
  questions ds !! SubmissionRequest.q_id sub = None →
  submit sub ds w = (inl (mkHTTPException 404 (lit "Question not found")), ds, w).
Proof. intros Hq. unfold submit, get_question. by rewrite Hq. Qed.

Lemma unknown_question_witness :
  submit (H := logged scripted) lost_submission new_store (timeout_then_answer, []) =
  (inl (mkHTTPException 404 (lit "Question not found")), new_store,
   (timeout_then_answer, [])).
Proof.
  apply (unknown_question_is_not_found (H := logged scripted) lost_submission new_store
           (timeout_then_answer, [])). reflexivity.
Defined.

(** X8. A submission in a known language for a question of the store
    is recorded only when the question has no test case: the verdict
    then comes back correct, with the message "Submission evaluated",
    and the question's attempts and successes go up by one, its total
    time by the verdict's time, the store written to its file and the
    questions left alone. When the question has a test case the
    evaluation raises ([TypeError] in language "output",
    [AttributeError] in "python"), the exception leaves the route, and
    nothing is recorded: the store is what it was and the clock has
    been read once. *)
Theorem submission_is_recorded_or_raises `{H : Host World}
    (sub : SubmissionRequest.t) (ds : DataStore) (w : World) (q : Question.t) :
  questions ds !! SubmissionRequest.q_id sub = Some q →
  SubmissionRequest.language sub = Some (lit "output") ∨
  SubmissionRequest.language sub = Some (lit "python") →
  (Question.test_cases q = [] →
   ∃ res,
     (submit sub ds w).1.1 = inr (inr res) ∧
     SubmissionResponse.message res = Some (lit "Submission evaluated") ∧
     SubmissionResponse.correct res = true ∧
     SubmissionResponse.total res = 0%nat ∧
     SubmissionResponse.results res = [] ∧
     stats_record (submit sub ds w).1.2 (SubmissionRequest.q_id sub) =
       Some (StatsDict.mk
               (StatsDict.attempts
                  (default fresh_stats (stats_record ds (SubmissionRequest.q_id sub))) + 1)
               (StatsDict.successes
                  (default fresh_stats (stats_record ds (SubmissionRequest.q_id sub))) + 1)
               (StatsDict.total_time_ms
                  (default fresh_stats (stats_record ds (SubmissionRequest.q_id sub)))
                + SubmissionResponse.time_ms res)%float) ∧
     store_file (submit sub ds w).1.2 = store (submit sub ds w).1.2 ∧
     questions (submit sub ds w).1.2 = questions ds) ∧
  (Question.test_cases q ≠ [] →
   ∃ e,
     submit sub ds w = (inr (inl e), ds, (time_time w).2) ∧
     (SubmissionRequest.language sub = Some (lit "output") →
      e = TypeError (lit "'TestCase' object is not subscriptable")) ∧
     (SubmissionRequest.language sub = Some (lit "python") →
      e = AttributeError (lit "'TestCase' object has no attribute 'get'"))).
Proof.
  intros Hq Hlang. unfold submit, get_question. rewrite Hq. split; intros Htc.
  - destruct Hlang as [Hl|Hl]; rewrite Hl.
    + rewrite bool_decide_eq_true_2 by done.
      rewrite (evaluate_output_submission_empty q _ w Htc).
      eexists. split; [done |]. cbn [fst snd SubmissionResponse.message
        SubmissionResponse.correct SubmissionResponse.total SubmissionResponse.results
        SubmissionResponse.time_ms].
      rewrite stats_record_update_stats, decide_True by done. done.
    + rewrite bool_decide_eq_false_2 by done. rewrite bool_decide_eq_true_2 by done.
      rewrite (evaluate_python_submission_empty q _ 2 w Htc).
      eexists. split; [done |]. cbn [fst snd SubmissionResponse.message
        SubmissionResponse.correct SubmissionResponse.total SubmissionResponse.results
        SubmissionResponse.time_ms].
      rewrite stats_record_update_stats, decide_True by done. done.
  - destruct Hlang as [Hl|Hl]; rewrite Hl.
    + rewrite bool_decide_eq_true_2 by done.
      rewrite (evaluate_output_submission_raises q _ w Htc).
      eexists. split; [done |]. split; [done | discriminate].
    + rewrite bool_decide_eq_false_2 by done. rewrite bool_decide_eq_true_2 by done.
      rewrite (evaluate_python_submission_raises q _ 2 w Htc).
      eexists. split; [done |]. split; [discriminate | done].
Qed.

Lemma recorded_or_raised_witness :
  ∃ e,
    submit (H := scripted) output_submission new_store timeout_then_answer =
      (inr (inl e), new_store, (@time_time _ scripted timeout_then_answer).2) ∧
    (SubmissionRequest.language output_submission = Some (lit "output") →
     e = TypeError (lit "'TestCase' object is not subscriptable")) ∧
    (SubmissionRequest.language output_submission = Some (lit "python") →
     e = AttributeError (lit "'TestCase' object has no attribute 'get'")).
Proof.
  apply (submission_is_recorded_or_raises (H := scripted) output_submission new_store
           timeout_then_answer q1); [reflexivity | left; reflexivity | discriminate].
Defined.

Lemma update_stats_consistent q_id user correct time_ms ds :
  counts_consistent ds → counts_consistent (update_stats q_id user correct time_ms ds).
Proof.
  intros Hds q' s. rewrite stats_record_update_stats.
  destruct (decide (q_id = q')) as [<-|Hne]; [|apply Hds].
  intros [= <-]. simpl.
  assert (0 ≤ StatsDict.successes (default fresh_stats (stats_record ds q_id))
          ≤ StatsDict.attempts (default fresh_stats (stats_record ds q_id)))%Z as Hold.
  { destruct (stats_record ds q_id) as [s|] eqn:Hs; [by apply (Hds q_id) | done]. }
  destruct correct; lia.
Qed.

(** X9. The counters stay consistent: if in a store the successes of
    every question lie between zero and its attempts, they still do
    after any sequence of calls of [update_stats]. *)
Theorem successes_never_exceed_attempts (calls : list recording) (ds : DataStore) :
  counts_consistent ds → counts_consistent (record_all calls ds).
Proof.
  intros Hds. induction calls as [|c calls IH] using rev_ind; [done |].
  rewrite record_all_snoc. by apply update_stats_consistent.
Qed.

Lemma consistent_counts_witness : counts_consistent (record_all three_calls new_store).
Proof.
  apply (successes_never_exceed_attempts three_calls new_store).
  intros q_id s Hs. unfold stats_record in Hs. simpl in Hs.
  rewrite lookup_empty in Hs. discriminate Hs.
Defined.

(** X11. A call of [update_stats] makes the leaderboard one entry
    longer until it holds 100; what it holds afterwards are entries of
    the previous leaderboard and the new entry, each at most as often
    as there; and while the previous leaderboard holds fewer than 100
    entries nothing is lost. *)
Theorem leaderboard_loses_only_the_overflow
    (q_id user : str) (correct : bool) (time_ms : float) (ds : DataStore) :
  length (board (update_stats q_id user correct time_ms ds))
    = (100 `min` S (length (board ds)))%nat ∧
  board (update_stats q_id user correct time_ms ds)
    ⊆+ board ds ++ [LeaderboardEntry.mk user q_id correct time_ms] ∧
  ((length (board ds) < 100)%nat →
   board (update_stats q_id user correct time_ms ds)
     ≡ₚ board ds ++ [LeaderboardEntry.mk user q_id correct time_ms]).
Proof.
  rewrite board_update_stats.
  pose proof (sorted_perm tuple_lt leaderboard_key
                (board ds ++ [LeaderboardEntry.mk user q_id correct time_ms])) as Hperm.
  assert (length (sorted tuple_lt leaderboard_key
                    (board ds ++ [LeaderboardEntry.mk user q_id correct time_ms]))
          = S (length (board ds))) as Hlen.
  { rewrite Hperm, length_app. simpl. lia. }
  split; [by rewrite length_take, Hlen |]. split.
  - rewrite <- Hperm at 2. apply sublist_submseteq, sublist_take.
  - intros Hlt. rewrite take_ge by lia. done.
Qed.

(** ** The leaderboard reader *)

Lemma board_update_sorted q_id user correct time_ms ds :
  Forall timed (board ds) → is_nan time_ms = false →
  StronglySorted entry_le (board (update_stats q_id user correct time_ms ds)).
Proof.
  intros Hb Ht. rewrite board_update_stats. apply StronglySorted_take.
  apply (sorted_sorted _ _ _ timed).
  - apply tuple_lt_entry_le.
  - apply tuple_nlt_entry_le.
  - apply entry_le_trans.
  - apply Forall_app. split; [done | by constructor].
Qed.

Lemma slice_to_prefix {A} top (l : list A) : slice_to top l `prefix_of` l.
Proof. unfold slice_to. destruct (0 <=? top)%Z; apply prefix_take. Qed.

(** X12. [get_leaderboard(top)] returns the leading entries of the
    leaderboard: as many as [top] says when there are that many and
    [top] is not negative (none for 0), all but the last [-top] when
    [top] is negative. *)
Theorem get_leaderboard_is_a_prefix (top : Z) (ds : DataStore) :
  get_leaderboard top ds `prefix_of` board ds ∧
  ((0 ≤ top)%Z →
   length (get_leaderboard top ds) = (Z.to_nat top `min` length (board ds))%nat) ∧
  ((top < 0)%Z →
   length (get_leaderboard top ds) = (length (board ds) - Z.to_nat (- top))%nat).
Proof.
  unfold get_leaderboard. fold (board ds). split; [apply slice_to_prefix |].
  unfold slice_to. split; intros Htop.
  - rewrite (proj2 (Z.leb_le 0 top)) by done. by rewrite length_take.
  - rewrite (proj2 (Z.leb_gt 0 top)) by done. rewrite length_take. lia.
Qed.

(** X13. After any calls of [update_stats] with times that are not NaN,
    at least one, what [get_leaderboard] returns for any [top] is in
    rank order (correct before incorrect, then ascending time) and
    holds at most 100 entries. *)
Theorem get_leaderboard_is_ranked (top : Z) (ds : DataStore)
    (calls : list recording) (c : recording) :
  Forall timed (board ds) →
  Forall (λ c, is_nan (rec_time_ms c) = false) (calls ++ [c]) →
  StronglySorted entry_le (get_leaderboard top (record_all (calls ++ [c]) ds)) ∧
  (length (get_leaderboard top (record_all (calls ++ [c]) ds)) ≤ 100)%nat.
Proof.
  intros Hb Hc. apply Forall_app in Hc as [Hcalls Hc]. apply Forall_inv in Hc.
  pose proof (record_all_timed calls ds Hb Hcalls) as Hprev.
  destruct (slice_to_prefix top (board (record_all (calls ++ [c]) ds))) as [rest Hrest].
  unfold get_leaderboard. fold (board (record_all (calls ++ [c]) ds)).
  split.
  - apply (StronglySorted_app_1_l _ _ rest). rewrite <- Hrest.
    rewrite record_all_snoc. by apply board_update_sorted.
  - assert (length (board (record_all (calls ++ [c]) ds)) ≤ 100)%nat as Hlen
      by (rewrite record_all_snoc, board_update_stats, length_take; lia).
    rewrite Hrest, length_app in Hlen. lia.
Qed.

Lemma ranked_leaderboard_witness :
  StronglySorted entry_le
    (get_leaderboard 2
       (record_all ([mkRecording (lit "q1") (lit "ann") false 5%float;
                     mkRecording (lit "q1") (lit "bob") true 30%float]
                    ++ [mkRecording (lit "q1") (lit "cy") true 20%float]) new_store)) ∧
  (length
     (get_leaderboard 2
        (record_all ([mkRecording (lit "q1") (lit "ann") false 5%float;
                      mkRecording (lit "q1") (lit "bob") true 30%float]
                     ++ [mkRecording (lit "q1") (lit "cy") true 20%float]) new_store))
   ≤ 100)%nat.
Proof.
  apply (get_leaderboard_is_ranked 2 new_store
           [mkRecording (lit "q1") (lit "ann") false 5%float;
            mkRecording (lit "q1") (lit "bob") true 30%float]
           (mkRecording (lit "q1") (lit "cy") true 20%float)).
  - constructor.
  - repeat constructor.
Defined.

(** ** The questions dictionary *)

Section dictionary.
Implicit Types (k : str) (v q : Question.t) (d : qdict).

Lemma dict_get_None k d : dict_get k d = None ↔ k ∉ d.*1.
Proof.
  induction d as [|[k' v'] d IH]; simpl; [split; [intros _; apply not_elem_of_nil | done] |].
  rewrite not_elem_of_cons, <- IH. destruct (decide (k' = k)) as [->|Hne]; [|split].
  - split; [done | by intros [? _]].
  - intros Hd. split; [congruence | done].
  - by intros [_ ?].
Qed.

Lemma dict_get_set_eq k v d : dict_get k (dict_set k v d) = Some v.
Proof.
  induction d as [|[k' v'] d IH]; simpl; [by rewrite decide_True |].
  destruct (decide (k' = k)); simpl; [by rewrite decide_True | by rewrite decide_False].
Qed.

Lemma dict_get_set_ne k k' v d : k ≠ k' → dict_get k' (dict_set k v d) = dict_get k' d.
Proof.
  intros Hne. induction d as [|[k0 v0] d IH]; simpl; [by rewrite decide_False |].
  destruct (decide (k0 = k)) as [->|]; simpl.
  - by rewrite !decide_False.
  - by rewrite IH.
Qed.

Lemma dict_set_fresh k v d : dict_get k d = None → dict_set k v d = d ++ [(k, v)].
Proof.
  induction d as [|[k' v'] d IH]; simpl; [done |].
  destruct (decide (k' = k)); [done |]. intros Hd. by rewrite IH.
Qed.

Lemma dict_set_keys k v d :
  (dict_set k v d).*1 =
  match dict_get k d with Some _ => d.*1 | None => d.*1 ++ [k] end.
Proof.
  induction d as [|[k' v'] d IH]; [done |]. cbn [dict_set dict_get].
  destruct (decide (k' = k)) as [->|]; [done |].
  rewrite !fmap_cons, IH. by destruct (dict_get k d).
Qed.

Lemma dict_set_keyed q d : keyed d → keyed (dict_set (Question.id q) q d).
Proof.
  intros [Hid Hnd]. split.
  - clear Hnd. induction Hid as [|[k' v'] d Hk Hd IH]; simpl; [by repeat constructor |].
    destruct (decide (k' = Question.id q)); constructor; done.
  - rewrite dict_set_keys. destruct (dict_get (Question.id q) d) eqn:Hget; [done |].
    apply NoDup_app. split; [done |]. split; [|apply NoDup_singleton].
    intros k Hk ->%list_elem_of_singleton. by apply dict_get_None in Hget.
Qed.

Lemma load_snoc file q : _load (file ++ [q]) = dict_set (Question.id q) q (_load file).
Proof. unfold _load. by rewrite foldl_app. Qed.

Lemma load_keyed file : keyed (_load file).
Proof.
  induction file as [|q file IH] using rev_ind; [split; constructor |].
  rewrite load_snoc. by apply dict_set_keyed.
Qed.

Lemma load_values d : keyed d → _load (dict_values d) = d.
Proof.
  unfold dict_values. induction d as [|[k v] d IH] using rev_ind; [done |].
  intros [Hid Hnd]. rewrite fmap_app in Hnd. rewrite fmap_app. simpl in *.
  apply Forall_app in Hid as [Hid Hk]. apply Forall_inv in Hk. simpl in Hk.
  apply NoDup_app in Hnd as (Hnd & Hfresh & _).
  rewrite load_snoc, IH by done. rewrite <- Hk. apply dict_set_fresh.
  apply dict_get_None. intros Hin. apply (Hfresh k Hin). by left.
Qed.

Lemma load_get file k :
  dict_get k (_load file) = last (filter (λ q, Question.id q = k) file).
Proof.
  induction file as [|q file IH] using rev_ind; [done |].
  rewrite load_snoc, filter_app, filter_cons, filter_nil.
  destruct (decide (Question.id q = k)) as [<-|Hne].
  - by rewrite dict_get_set_eq, last_snoc.
  - by rewrite dict_get_set_ne, app_nil_r.
Qed.

Lemma dict_get_map k d : (list_to_map d : gmap str Question.t) !! k = dict_get k d.
Proof.
  induction d as [|[k' v'] d IH]; simpl; [done |].
  rewrite lookup_insert. by destruct (decide (k' = k)).
Qed.

(** X14. Adding a question whose id is already in the dictionary
    raises [KeyError] ("Question already exists"), and the route turns
    it into the HTTP error 400 whose detail is that message between
    quotes; the dictionary and the questions file are left as they
    were. *)
Theorem duplicate_question_is_refused q (b : QuestionBook) :
  is_Some (dict_get (Question.id q) (book_questions b)) →
  add_question q b = inl (mkKeyError (lit "Question already exists")) ∧
  Api.add_question q b =
    (inl (mkHTTPException 400 (lit "'Question already exists'")), b).
Proof.
  intros Hq. unfold Api.add_question, add_question.
  by rewrite bool_decide_eq_true_2.
Qed.

(** X15. Adding a question under a new id puts it last in the
    dictionary and in the questions file, which lists the dictionary's
    values in order; afterwards the question is found under its id, by
    [get_question] as well, and every other id finds what it found
    before. *)
Theorem added_question_is_found q (b : QuestionBook) (s f : Store) :
  dict_get (Question.id q) (book_questions b) = None →
  ∃ b',
    add_question q b = inr b' ∧
    Api.add_question q b = (inr (), b') ∧
    book_questions b' = book_questions b ++ [(Question.id q, q)] ∧
    questions_file b' = dict_values (book_questions b) ++ [q] ∧
    dict_get (Question.id q) (book_questions b') = Some q ∧
    get_question (mkDataStore (list_to_map (book_questions b')) s f) (Question.id q)
      = inr q ∧
    ∀ k, k ≠ Question.id q →
         dict_get k (book_questions b') = dict_get k (book_questions b).
Proof.
  intros Hq. unfold Api.add_question, add_question.
  rewrite bool_decide_eq_false_2 by (rewrite Hq; by intros [? ?]).
  eexists. split; [done |]. split; [done |]. simpl.
  rewrite dict_set_fresh by done.
  split; [done |]. split; [by unfold dict_values; rewrite fmap_app |].
  assert (dict_get (Question.id q) (book_questions b ++ [(Question.id q, q)]) = Some q)
    as Hget by (rewrite <- dict_set_fresh by done; apply dict_get_set_eq).
  split; [done |]. split.
  - unfold get_question. simpl. by rewrite dict_get_map, Hget.
  - intros k Hk. rewrite <- dict_set_fresh by done. by apply dict_get_set_ne.
Qed.

(** X16. What [add_question] writes, [_load] reads back: when every
    question of the dictionary stands under its own id, once, the file
    written after adding a question loads to the very dictionary the
    store then holds, which again has every question under its own id,
    once. *)
Theorem questions_file_round_trip q (b : QuestionBook) :
  keyed (book_questions b) →
  dict_get (Question.id q) (book_questions b) = None →
  ∃ b',
    add_question q b = inr b' ∧
    _load (questions_file b') = book_questions b' ∧
    keyed (book_questions b').
Proof.
  intros Hb Hq. unfold add_question.
  rewrite bool_decide_eq_false_2 by (rewrite Hq; by intros [? ?]).
  eexists. split; [done |]. simpl.
  pose proof (dict_set_keyed q _ Hb) as Hk. split; [by apply load_values | done].
Qed.

(** X17. Loading a questions file gives a dictionary in which every
    question stands under its own id and no id stands twice; of several
    questions with one id the last in the file is the one found, and an
    id that is not in the file finds nothing. *)
Theorem load_keeps_the_last_of_an_id (file : list Question.t) :
  keyed (_load file) ∧
  ∀ k, dict_get k (_load file) = last (filter (λ q, Question.id q = k) file).
Proof. split; [apply load_keyed | intros k; apply load_get]. Qed.

End dictionary.

Lemma duplicate_question_witness :
  add_question q1 sample_book = inl (mkKeyError (lit "Question already exists")) ∧
  Api.add_question q1 sample_book =
    (inl (mkHTTPException 400 (lit "'Question already exists'")), sample_book).
Proof. apply (duplicate_question_is_refused q1 sample_book). by eexists. Defined.

Lemma added_question_witness :
  ∃ b',
    add_question q0 sample_book = inr b' ∧
    Api.add_question q0 sample_book = (inr (), b') ∧
    book_questions b' = book_questions sample_book ++ [(Question.id q0, q0)] ∧
    questions_file b' = dict_values (book_questions sample_book) ++ [q0] ∧
    dict_get (Question.id q0) (book_questions b') = Some q0 ∧
    get_question
      (mkDataStore (list_to_map (book_questions b')) (store new_store) (store new_store))
      (Question.id q0) = inr q0 ∧
    ∀ k, k ≠ Question.id q0 →
         dict_get k (book_questions b') = dict_get k (book_questions sample_book).
Proof.
  apply (added_question_is_found q0 sample_book (store new_store) (store new_store)).
  reflexivity.
Defined.

Lemma round_trip_witness :
  ∃ b',
    add_question q0 sample_book = inr b' ∧
    _load (questions_file b') = book_questions b' ∧
    keyed (book_questions b').
Proof.
  apply (questions_file_round_trip q0 sample_book); [|reflexivity].
  split; [repeat constructor |].
  apply (bool_decide_unpack _). vm_compute. exact I.
Defined.

(** ** The question of the day *)

Lemma str_lt_asym (a b : str) : str_lt a b = true → str_lt b a = false.
Proof.
  revert b. induction a as [|x a IH]; intros [|y b]; simpl; try done.
  destruct (N.ltb_spec x y), (N.ltb_spec y x); try done; try lia. apply IH.
Qed.

Lemma str_le_trans (a b c : str) :
  str_lt b a = false → str_lt c b = false → str_lt c a = false.
Proof.
  revert a b. induction c as [|z c IH]; intros [|x a] [|y b]; simpl; try done.
  destruct (N.ltb_spec y x), (N.ltb_spec x y), (N.ltb_spec z y), (N.ltb_spec y z),
    (N.ltb_spec z x), (N.ltb_spec x z); try done; try lia.
  apply IH.
Qed.

Lemma today_ids_perm ds : today_ids ds ≡ₚ (map_to_list (questions ds)).*1.
Proof. apply sorted_perm. Qed.

Lemma today_ids_sorted ds : StronglySorted (λ a b, str_lt b a = false) (today_ids ds).
Proof.
  apply (sorted_sorted _ _ _ (λ _, True)).
  - intros x y _ _. apply str_lt_asym.
  - by intros x y _ _.
  - intros x y z _ _ _ Hxy Hyz. by apply (str_le_trans x y z).
  - by apply Forall_forall.
Qed.

Lemma today_ids_stored ds k : k ∈ today_ids ds → is_Some (questions ds !! k).
Proof.
  rewrite today_ids_perm. intros ([k' q] & -> & Hkq)%list_elem_of_fmap.
  apply elem_of_map_to_list in Hkq. by exists q.
Qed.

Lemma today_ids_nil ds : today_ids ds = [] ↔ questions ds = ∅.
Proof.
  split.
  - intros Hnil. pose proof (today_ids_perm ds) as Hp. rewrite Hnil in Hp.
    apply Permutation_nil_l in Hp. symmetry in Hp. apply fmap_nil_inv in Hp.
    by apply map_to_list_empty_iff.
  - intros Hempty. unfold today_ids. by rewrite Hempty, map_to_list_empty.
Qed.

(** X18. [get_today] reads the clock once. With no question in the
    store it fails on the modulo by the zero length; otherwise it
    returns the question of the store whose id stands at position
    (day number mod number of questions) of the ids in ascending order,
    so it never fails on the index or the key and every answer is a
    question of the store. *)
Theorem get_today_picks_a_stored_question `{H : Host World}
    (whole_days : float → Z) (ds : DataStore) (w : World) :
  (get_today whole_days ds w).2 = (time_time w).2 ∧
  StronglySorted (λ a b, str_lt b a = false) (today_ids ds) ∧
  today_ids ds ≡ₚ (map_to_list (questions ds)).*1 ∧
  (questions ds = ∅ → (get_today whole_days ds w).1 = inl ModuloByZero) ∧
  (questions ds ≠ ∅ →
   ∃ k q,
     today_ids ds !! Z.to_nat (whole_days (time_time w).1
                               `mod` Z.of_nat (length (today_ids ds))) = Some k ∧
     questions ds !! k = Some q ∧
     (get_today whole_days ds w).1 = inr q).
Proof.
  unfold get_today, mbind, state_bind, mret, state_ret. fold (today_ids ds).
  destruct (time_time w) as [t w1]. simpl.
  split.
  { case_bool_decide; [done |].
    destruct (today_ids ds !! _) as [k|]; [|done]. by destruct (questions ds !! k). }
  split; [apply today_ids_sorted |]. split; [apply today_ids_perm |]. split.
  - intros Hempty%today_ids_nil. rewrite Hempty. done.
  - intros Hne. rewrite <- today_ids_nil in Hne.
    rewrite bool_decide_eq_false_2 by (by intros ?%nil_length_inv).
    assert (0 < length (today_ids ds))%nat as Hpos
      by (destruct (today_ids ds); [done | simpl; lia]).
    pose proof (Z.mod_pos_bound (whole_days t) (Z.of_nat (length (today_ids ds)))) as Hb.
    destruct (lookup_lt_is_Some_2 (today_ids ds)
                (Z.to_nat (whole_days t `mod` Z.of_nat (length (today_ids ds)))))
      as [k Hk]; [lia |].
    destruct (today_ids_stored ds k) as [q Hq]; [by eapply list_elem_of_lookup_2 |].
    exists k, q. by rewrite Hk, Hq.
Qed.

(** ** The question routes *)

(** X19. Unless [reveal] is set, neither question route returns the
    expected solution: the question comes back with every other field
    as stored and no solution. With [reveal] it comes back whole, and
    an unknown id is answered with the HTTP error 404. *)
Theorem question_routes_hide_the_solution `{H : Host World}
    (whole_days : float → Z) (ds : DataStore) (w : World) :
  (∀ q_id q, questions ds !! q_id = Some q →
     Api.get_question q_id true ds = inr q ∧
     ∃ out, Api.get_question q_id false ds = inr out ∧
            Question.expected_solution out = None ∧
            (Question.id out, Question.title out, Question.difficulty out,
             Question.statement out, Question.sample_input out,
             Question.sample_output out, Question.test_cases out, Question.hints out)
            = (Question.id q, Question.title q, Question.difficulty q,
               Question.statement q, Question.sample_input q,
               Question.sample_output q, Question.test_cases q, Question.hints q)) ∧
  (∀ q_id, questions ds !! q_id = None →
     ∀ reveal, Api.get_question q_id reveal ds
               = inl (mkHTTPException 404 (lit "Question not found"))) ∧
  (∀ out, (Api.get_today whole_days false ds w).1 = inr out →
     Question.expected_solution out = None ∧
     ∃ q, (get_today whole_days ds w).1 = inr q ∧
          (Question.id out, Question.title out, Question.difficulty out,
           Question.statement out, Question.sample_input out,
           Question.sample_output out, Question.test_cases out, Question.hints out)
          = (Question.id q, Question.title q, Question.difficulty q,
             Question.statement q, Question.sample_input q,
             Question.sample_output q, Question.test_cases q, Question.hints q)) ∧
  (Api.get_today whole_days true ds w).1 = (get_today whole_days ds w).1.
Proof.
  split; [|split; [|split]].
  - intros q_id q Hq. unfold Api.get_question, get_question. rewrite Hq.
    split; [by destruct q |]. by eexists.
  - intros q_id Hq reveal. unfold Api.get_question, get_question. by rewrite Hq.
  - intros out. unfold Api.get_today, mbind, state_bind, mret, state_ret.
    destruct (get_today whole_days ds w) as [[e|q] w1]; simpl; [done |].
    intros [= <-]. split; [done |]. by exists q.
  - unfold Api.get_today, mbind, state_bind, mret, state_ret.
    destruct (get_today whole_days ds w) as [[e|q] w1]; simpl; [done |].
    by destruct q.
Qed.

(** ** Which sources reach the child unchanged *)








(** A source that ends with a quote loses it; a carriage return
    arrives as a line feed; a source with a NUL is never read. *)
Example trailing_quote_is_lost :
  bound_source (assemble (lit "x = 'a'")) =
  Bound (lit "x = 'a") ([quote] ++ nl ++ wrapper).
Proof. vm_compute. reflexivity. Qed.

Example carriage_return_is_translated :
  bound_source (assemble (lit "a = 1" ++ [carriage_return] ++ nl ++ lit "b = 2")) =
  Bound (lit "a = 1" ++ nl ++ lit "b = 2") (nl ++ wrapper).
Proof. vm_compute. reflexivity. Qed.

Example nul_is_never_read :
  bound_source (assemble (lit "a = 1" ++ [0])) = NotRead.
Proof. vm_compute. reflexivity. Qed.
